(** * EDA helper functions: a shallow embedding and its properties

    The notebook [introduction_eda_functions.ipynb] defines four independent
    functions over pandas data frames and Python lists:
    [nan_processor], [feature_cleaner], [get_feature] and [one_hot_encode].

    The numbers are modelled twice.  First exactly: a float cell is a
    rational or NaN ([option Q], [None] being NaN), and the one irrational
    step, the square root inside [DataFrame.std], is taken in the real
    numbers; rounding is outside this model.  Then, in the module [F64]
    further down, in IEEE 754 binary64 with the primitive floats, operation
    by operation as pandas and NumPy compute: what rounding can change (the
    cells between two percentiles, the scaled values, the ranking of the
    features) is stated there, for the doubles the program computes.  In
    both, the source is followed line by line, with the pandas operations it
    calls ([replace], [dropna], [quantile], boolean indexing, [mean], [std],
    [var], [groupby(...).apply], [idxmax]) written out as functions of the
    same names. *)

From Stdlib Require Import String Ascii.
From Stdlib Require Import List Bool Arith ZArith Lia.
From Stdlib Require Import QArith Qround Qminmax.
From Stdlib Require Import Reals Qreals Lra.
Import ListNotations.

Set Implicit Arguments.

(** ** Data model *)

(** A table: named columns in order, and rows in order, each row carrying its
    caller-visible index label and one cell per column. *)
Record DataFrame (L A : Type) : Type := mkDF {
  columns : list string;
  rows : list (L * list A)
}.

Arguments mkDF {L A} _ _.

Definition index {L A} (df : DataFrame L A) : list L := map fst (rows df).

(** The values of column [j], top to bottom; [d] stands for a cell a ragged
    row does not have. *)
Definition column {L A} (d : A) (j : nat) (df : DataFrame L A) : list A :=
  map (fun r => nth j (snd r) d) (rows df).

(** Every row has one cell per column. *)
Definition wf {L A} (df : DataFrame L A) : Prop :=
  Forall (fun r => length (snd r) = length (columns df)) (rows df).

(** [DataFrame.dropna(axis=0, how='any')]: keep the rows without a missing
    cell, labels and order untouched. *)
Definition dropna {L A} (isna : A -> bool) (df : DataFrame L A) : DataFrame L A :=
  mkDF (columns df) (filter (fun r => negb (existsb isna (snd r))) (rows df)).

(** A returned value or a raised exception. *)
Inductive exn : Type := ValueError | KeyError.

Inductive result (A : Type) : Type :=
| Ok (a : A)
| Raise (e : exn).

Arguments Ok {A} _.
Arguments Raise {A} _.

(** ** [nan_processor] *)

(** A cell of a mixed table: a number, a string, or NaN. *)
Inductive Scalar : Type :=
| Num (q : Q)
| Str (s : string)
| NaN.

Definition isna (c : Scalar) : bool :=
  match c with NaN => true | _ => false end.

(** Python [==] on cells: numbers by value, strings by content; NaN equals
    nothing, itself included. *)
Definition scalar_eqb (a b : Scalar) : bool :=
  match a, b with
  | Num x, Num y => Qeq_bool x y
  | Str s, Str t => String.eqb s t
  | _, _ => false
  end.

(** Which cells [replace] rewrites: those equal to [to_replace]; for a NaN
    [to_replace], pandas masks the missing cells instead. *)
Definition to_replace_mask (to_replace c : Scalar) : bool :=
  if isna to_replace then isna c else scalar_eqb c to_replace.

(** [DataFrame.replace(to_replace, value)] with two scalars. *)
Definition replace {L} (df : DataFrame L Scalar) (to_replace value : Scalar)
  : DataFrame L Scalar :=
  mkDF (columns df)
       (map (fun r => (fst r,
                       map (fun c => if to_replace_mask to_replace c then value else c)
                           (snd r)))
            (rows df)).

Definition nan_processor {L} (df : DataFrame L Scalar) (replacement_str : Scalar)
  : DataFrame L Scalar :=
  let tdf := replace df replacement_str NaN in
  dropna isna tdf.

(** A row the filter keeps: no cell is missing and none is the sentinel. *)
Definition clean_row (replacement_str : Scalar) (cells : list Scalar) : bool :=
  forallb (fun c => negb (isna c) && negb (to_replace_mask replacement_str c)) cells.

(** ** [one_hot_encode] *)

Module OneHot.
Section Encode.
Variable A : Type.
Variable eq_dec : forall x y : A, {x = y} + {x <> y}.

Definition one_hot_encode (label_to_encode : A) (labels : list A) : list Z :=
  map (fun label => if eq_dec label_to_encode label then 1%Z else 0%Z) labels.

Definition sum (xs : list Z) : Z := fold_right Z.add 0%Z xs.
End Encode.
End OneHot.

(** ** Numeric tables *)

(** A float cell: a number or NaN. *)
Definition float : Type := option Q.

Definition isnan (x : float) : bool :=
  match x with None => true | Some _ => false end.

Definition Qlt_bool (x y : Q) : bool := negb (Qle_bool y x).

(** Comparisons and arithmetic on cells; whatever involves NaN is false,
    respectively NaN. *)
Definition flt (a b : float) : bool :=
  match a, b with Some x, Some y => Qlt_bool x y | _, _ => false end.

Definition feq (a b : float) : bool :=
  match a, b with Some x, Some y => Qeq_bool x y | _, _ => false end.

Definition fsub (a b : float) : float :=
  match a, b with Some x, Some y => Some (x - y) | _, _ => None end.

(** Division.  A zero divisor gives NaN: the only divisors of this program
    that can be zero are a variance and a standard deviation, which are zero
    only for values that are all equal ([zero_variance_constant] below); the
    dividend, their range or their distance to the mean, is then zero too,
    and 0/0 is NaN. *)
Definition fdiv (a b : float) : float :=
  match a, b with
  | Some x, Some y => if Qeq_bool y 0 then None else Some (x / y)
  | _, _ => None
  end.

Fixpoint zip_with {A B C} (f : A -> B -> C) (xs : list A) (ys : list B) : list C :=
  match xs, ys with
  | x :: xs', y :: ys' => f x y :: zip_with f xs' ys'
  | _, _ => []
  end.

(** The non-missing values of a column (the reductions skip NaN). *)
Definition notna_values (xs : list float) : list Q :=
  flat_map (fun x => match x with Some q => [q] | None => [] end) xs.

Fixpoint insert (x : Q) (xs : list Q) : list Q :=
  match xs with
  | [] => [x]
  | y :: ys => if Qle_bool x y then x :: y :: ys else y :: insert x ys
  end.

Definition sort_values (xs : list Q) : list Q := fold_right insert [] xs.

Definition Qsum (xs : list Q) : Q := fold_right Qplus 0 xs.

Definition count (xs : list Q) : Q := inject_Z (Z.of_nat (length xs)).

Definition mean_values (xs : list Q) : float :=
  match xs with
  | [] => None
  | _ => Some (Qsum xs / count xs)
  end.

(** Sample variance, [ddof=1], in exact arithmetic: NaN below two values.
    [F64.var_values] is the same reduction in doubles, where the mean and
    the sums are rounded. *)
Definition var_values (xs : list Q) : float :=
  match mean_values xs with
  | None => None
  | Some m =>
      if (length xs <=? 1)%nat then None
      else Some (Qsum (map (fun x => (x - m) * (x - m)) xs) / (count xs - 1))
  end.

Definition Qmax' (a b : Q) : Q := if Qle_bool a b then b else a.
Definition Qmin' (a b : Q) : Q := if Qle_bool a b then a else b.

Definition max_values (xs : list Q) : float :=
  match xs with [] => None | x :: t => Some (fold_left Qmax' t x) end.

Definition min_values (xs : list Q) : float :=
  match xs with [] => None | x :: t => Some (fold_left Qmin' t x) end.

(** The quantile of sorted values by linear interpolation between the two
    order statistics around position [q * (n - 1)], in exact arithmetic.
    [F64.interpolate_linear] is the same computation in doubles, where the
    position, its integer part and the interpolation are rounded. *)
Definition interpolate_linear (sorted : list Q) (q : Q) : float :=
  match sorted with
  | [] => None
  | x0 :: _ =>
      let n := length sorted in
      let pos := q * inject_Z (Z.of_nat (n - 1)) in
      let lo := Z.to_nat (Qfloor pos) in
      let frac := pos - inject_Z (Qfloor pos) in
      let a := nth lo sorted x0 in
      let b := nth (Nat.min (S lo) (n - 1)) sorted x0 in
      Some (a + (b - a) * frac)
  end.

Definition quantile_values (xs : list float) (q : Q) : float :=
  interpolate_linear (sort_values (notna_values xs)) q.

(** A column-wise reduction of a frame: one value per column, in column
    order. *)
Definition reduce_columns {L T} (f : list Q -> T) (df : DataFrame L float) : list T :=
  map (fun j => f (notna_values (column None j df))) (seq 0 (length (columns df))).

Definition mean {L} (df : DataFrame L float) : list float := reduce_columns mean_values df.
Definition var {L} (df : DataFrame L float) : list float := reduce_columns var_values df.
Definition max {L} (df : DataFrame L float) : list float := reduce_columns max_values df.
Definition min {L} (df : DataFrame L float) : list float := reduce_columns min_values df.

(** [DataFrame.std()]: the square root of the sample variance. *)
Definition std {L} (df : DataFrame L float) : list (option R) :=
  map (option_map (fun v => sqrt (Q2R v))) (var df).

(** pandas validates the percentiles before computing anything. *)
Definition check_percentile (q : Q) : bool := Qle_bool 0 q && Qle_bool q 1.

(** [DataFrame.quantile(qs)] with a list: a frame indexed by the
    percentiles, with the columns of [df]. *)
Definition quantile {L} (df : DataFrame L float) (qs : list Q)
  : result (DataFrame Q float) :=
  if forallb check_percentile qs then
    Ok (mkDF (columns df)
             (map (fun q => (q, map (fun j => quantile_values (column None j df) q)
                                    (seq 0 (length (columns df)))))
                  qs))
  else Raise ValueError.

(** [df.iloc[i]]: row [i] as a series over the columns. *)
Definition iloc {L A} (df : DataFrame L A) (i : nat) : list A :=
  nth i (map snd (rows df)) [].

(** [series < df] and [df < series], aligned on the columns. *)
Definition series_lt_frame {L} (s : list float) (df : DataFrame L float)
  : DataFrame L bool :=
  mkDF (columns df) (map (fun r => (fst r, zip_with flt s (snd r))) (rows df)).

Definition frame_lt_series {L} (df : DataFrame L float) (s : list float)
  : DataFrame L bool :=
  mkDF (columns df) (map (fun r => (fst r, zip_with flt (snd r) s)) (rows df)).

(** [m1 & m2] *)
Definition frame_and {L} (m1 m2 : DataFrame L bool) : DataFrame L bool :=
  mkDF (columns m1)
       (zip_with (fun r1 r2 => (fst r1, zip_with andb (snd r1) (snd r2)))
                 (rows m1) (rows m2)).

(** [df[msk]] with a boolean frame: the cells outside the mask become NaN. *)
Definition getitem_mask {L} (df : DataFrame L float) (msk : DataFrame L bool)
  : DataFrame L float :=
  mkDF (columns df)
       (zip_with (fun r m => (fst r, zip_with (fun c (b : bool) => if b then c else None)
                                               (snd r) (snd m)))
                 (rows df) (rows msk)).

(** [df - series] *)
Definition frame_sub_series {L} (df : DataFrame L float) (s : list float)
  : DataFrame L float :=
  mkDF (columns df) (map (fun r => (fst r, zip_with fsub (snd r) s)) (rows df)).

(** Division of a cell by a standard deviation. *)
Definition fdivR (a : float) (s : option R) : option R :=
  match a, s with
  | Some x, Some y => if Req_dec_T y 0 then None else Some (Q2R x / y)%R
  | _, _ => None
  end.

(** [df / series] *)
Definition frame_div_series {L} (df : DataFrame L float) (s : list (option R))
  : DataFrame L (option R) :=
  mkDF (columns df) (map (fun r => (fst r, zip_with fdivR (snd r) s)) (rows df)).

(** ** [feature_cleaner] *)

(** Lines 93 to 99: the frame after masking and dropping, before scaling. *)
Definition feature_cleaner_new_df {L} (df : DataFrame L float) (low high : Q)
  : result (DataFrame L float) :=
  match quantile df [low; high] with
  | Raise e => Raise e
  | Ok quantile =>
      let msk_in_range :=
        frame_and (series_lt_frame (iloc quantile 0) df)
                  (frame_lt_series df (iloc quantile 1)) in
      let new_df := getitem_mask df msk_in_range in
      Ok (dropna isnan new_df)
  end.

Definition feature_cleaner {L} (df : DataFrame L float) (low high : Q)
  : result (DataFrame L (option R)) :=
  match feature_cleaner_new_df df low high with
  | Raise e => Raise e
  | Ok new_df =>
      Ok (frame_div_series (frame_sub_series new_df (mean new_df)) (std new_df))
  end.

(** ** [get_feature] *)

Fixpoint find_column (name : string) (cols : list string) : option nat :=
  match cols with
  | [] => None
  | c :: cs => if String.eqb c name then Some O else option_map S (find_column name cs)
  end.

(** The distinct values of a sorted list. *)
Fixpoint unique_sorted (xs : list Q) : list Q :=
  match xs with
  | [] => []
  | x :: t =>
      match t with
      | [] => [x]
      | y :: _ => if Qeq_bool x y then unique_sorted t else x :: unique_sorted t
      end
  end.

(** [df.groupby(by)]: one sub-frame per distinct key, keys ascending, each
    with all the columns of [df] (the key column included) and the rows of
    that key in their original order. *)
Record DataFrameGroupBy (L : Type) : Type := mkGroupBy {
  obj_columns : list string;
  groups : list (Q * DataFrame L float)
}.

Definition groupby {L} (df : DataFrame L float) (by_ : string)
  : result (DataFrameGroupBy L) :=
  match find_column by_ (columns df) with
  | None => Raise KeyError
  | Some j =>
      Ok (mkGroupBy (columns df)
            (map (fun k => (k, mkDF (columns df)
                                    (filter (fun r => feq (nth j (snd r) None) (Some k))
                                            (rows df))))
                 (unique_sorted (sort_values (notna_values (column None j df))))))
  end.

(** [groups.apply(func)] for a [func] that returns a series over the
    columns: a frame indexed by the group keys. *)
Definition groupby_apply {L} (g : DataFrameGroupBy L)
    (func : DataFrame L float -> list float) : DataFrame Q float :=
  mkDF (obj_columns g) (map (fun kv => (fst kv, func (snd kv))) (groups g)).

(** [df.apply(func)]: [func] on each column, the results labelled by the
    column names. *)
Definition apply {L} (df : DataFrame L float) (func : list float -> float)
  : list (string * float) :=
  zip_with (fun name j => (name, func (column None j df)))
           (columns df) (seq 0 (length (columns df))).

Definition series_sub (a b : list float) : list float := zip_with fsub a b.
Definition series_div (a b : list float) : list float := zip_with fdiv a b.

(** [np.max] and [np.min] of a series skip NaN. *)
Definition series_max (x : list float) : float := max_values (notna_values x).
Definition series_min (x : list float) : float := min_values (notna_values x).

(** [Series.idxmax()]: the label of the first largest value, NaN skipped;
    NaN ([None]) for a series of NaN only, an error for an empty one. *)
Fixpoint idxmax_from (best : string * Q) (s : list (string * float)) : string :=
  match s with
  | [] => fst best
  | (_, None) :: t => idxmax_from best t
  | (name, Some v) :: t =>
      if Qlt_bool (snd best) v then idxmax_from (name, v) t else idxmax_from best t
  end.

Fixpoint first_valid (s : list (string * float)) : option string :=
  match s with
  | [] => None
  | (_, None) :: t => first_valid t
  | (name, Some v) :: t => Some (idxmax_from (name, v) t)
  end.

Definition idxmax (s : list (string * float)) : result (option string) :=
  match s with
  | [] => Raise ValueError
  | _ => Ok (first_valid s)
  end.

Definition get_feature {L} (df : DataFrame L float) : result (option string) :=
  match groupby df "CLASS" with
  | Raise e => Raise e
  | Ok df_by_class =>
      let df_w_ratio :=
        groupby_apply df_by_class
          (fun x => series_div (series_sub (max x) (min x)) (var x)) in
      let df_sort := apply df_w_ratio (fun x => fdiv (series_max x) (series_min x)) in
      idxmax df_sort
  end.

(** ** Quantities the properties are stated with *)

(** The cells a row keeps under the mask of [feature_cleaner], given the two
    percentile series. *)
Definition masked_cells (qlow qhigh : list float) (cells : list float) : list float :=
  zip_with (fun c (b : bool) => if b then c else None) cells
           (zip_with andb (zip_with flt qlow cells) (zip_with flt cells qhigh)).

(** The percentile [q] of every column, in column order: a row of the frame
    that [quantile] returns. *)
Definition percentile_series {L} (df : DataFrame L float) (q : Q) : list float :=
  map (fun j => quantile_values (column None j df) q) (seq 0 (length (columns df))).

Definition kept_row {L} (qlow qhigh : list float) (r : L * list float) : bool :=
  negb (existsb isnan (masked_cells qlow qhigh (snd r))).

(** The value of a cell known to be a number. *)
Definition get (x : float) : Q :=
  match x with Some q => q | None => 0 end.

(** The feature values of column [j] within the rows whose cell in column
    [jc] equals [c]. *)
Definition class_values {L} (df : DataFrame L float) (jc j : nat) (c : Q) : list Q :=
  notna_values
    (map (fun r => nth j (snd r) None)
         (filter (fun r => feq (nth jc (snd r) None) (Some c)) (rows df))).

(** What the first [apply] call of [get_feature] computes for column [j]
    within the rows of key [c]. *)
Definition R_code {L} (df : DataFrame L float) (jc j : nat) (c : Q) : float :=
  let vs := class_values df jc j c in
  fdiv (fsub (max_values vs) (min_values vs)) (var_values vs).

(** Mean and sample standard deviation of real values, to measure the
    scaled output. *)
Definition Rsum (zs : list R) : R := fold_right Rplus 0%R zs.

Definition Rmean (zs : list R) : R := (Rsum zs / INR (length zs))%R.

Definition Rstd (zs : list R) : R :=
  sqrt (Rsum (map (fun z => ((z - Rmean zs) * (z - Rmean zs))%R) zs)
        / (INR (length zs) - 1))%R.

(** A scaled cell within [tol] of a listed value. *)
Definition close_to (tol : Q) (o : option R) (e : Q) : Prop :=
  exists z : R, o = Some z /\ (Rabs (z - Q2R e) <= Q2R tol)%R.

(** Decides [a <= b * sqrt v] for a positive [v] by comparing squares. *)
Definition le_mul_sqrt (a b v : Q) : bool :=
  if Qle_bool 0 b then
    if Qle_bool a 0 then true else Qle_bool (a * a) (b * b * v)
  else
    Qle_bool a 0 && Qle_bool (b * b * v) (a * a).

(** Decides [| x / sqrt v - e | <= tol] for a positive [v]. *)
Definition close_check (tol x v e : Q) : bool :=
  le_mul_sqrt x (e + tol) v && le_mul_sqrt (- x) (- (e - tol)) v.

(** ** The worked examples of the docstrings *)

Module Examples.
Open Scope string_scope.
Open Scope Q_scope.

(** The docstring table of [nan_processor]. *)
Definition blah_df : DataFrame Z Scalar :=
  mkDF ["A"; "B"; "C"]
       [(0%Z, [Num 0.5; Num 0.3; Str "blah"]);
        (1%Z, [Num 0.2; Num 0.1; Num 5]);
        (2%Z, [Num 0.1; Str "blah"; Num 3]);
        (3%Z, [Num 0.7; Num 0.2; Num 1])].

(** A table with a cell that is missing from the start. *)
Definition nan_df : DataFrame Z Scalar :=
  mkDF ["A"; "B"]
       [(0%Z, [NaN; Num 1]);
        (1%Z, [Num 2; Num 3])].

(** The docstring table of [feature_cleaner]. *)
Definition testdf : DataFrame string float :=
  mkDF ["0"; "1"; "2"]
       [("A", [Some 0.1; Some 0.2; Some 0.1]);
        ("B", [Some 5.0; Some 10.0; Some 20.0]);
        ("C", [Some 0.2; Some 0.3; Some 0.5]);
        ("D", [Some 0.3; Some 0.2; Some 0.7]);
        ("E", [Some (-0.1); Some (-0.2); Some (-0.4)]);
        ("F", [Some 0.1; Some 0.4; Some 0.3]);
        ("G", [Some (-0.5); Some 0.3; Some (-0.2)]);
        ("H", [Some (-10.0); Some 0.3; Some 1.0])].

(** The rows that survive the trim of [testdf] at 0.01 and 0.99. *)
Definition testdf_trimmed : DataFrame string float :=
  mkDF ["0"; "1"; "2"]
       [("A", [Some 0.1; Some 0.2; Some 0.1]);
        ("C", [Some 0.2; Some 0.3; Some 0.5]);
        ("D", [Some 0.3; Some 0.2; Some 0.7]);
        ("F", [Some 0.1; Some 0.4; Some 0.3]);
        ("G", [Some (-0.5); Some 0.3; Some (-0.2)])].

(** The trimmed rows with each column's mean subtracted, and the sample
    variance of each trimmed column, evaluated. *)
Definition testdf_centered : DataFrame string float :=
  Eval vm_compute in frame_sub_series testdf_trimmed (mean testdf_trimmed).

Definition testdf_var : list float :=
  Eval vm_compute in var testdf_trimmed.

(** The output listed in the docstring. *)
Definition testdf_expected : list (string * list Q) :=
  [("A", [0.191663; -0.956183; -0.515339]);
   ("C", [0.511101; 0.239046; 0.629858]);
   ("D", [0.830540; -0.956183; 1.202457]);
   ("F", [0.191663; 1.434274; 0.057260]);
   ("G", [-1.724967; 0.239046; -1.374236])].

(** The docstring table of [get_feature]. *)
Definition classdf : DataFrame Z float :=
  mkDF ["A"; "B"; "C"; "CLASS"]
       [(0%Z, [Some 0.1; Some 0.2; Some 0.1; Some 0]);
        (1%Z, [Some 5.0; Some 10.0; Some 20.0; Some 0]);
        (2%Z, [Some 0.2; Some 0.3; Some 0.5; Some 1]);
        (3%Z, [Some 0.3; Some 0.2; Some 0.7; Some 0]);
        (4%Z, [Some (-0.1); Some (-0.2); Some (-0.4); Some 1]);
        (5%Z, [Some 0.1; Some 0.4; Some 0.3; Some 0]);
        (6%Z, [Some (-0.5); Some 0.3; Some (-0.2); Some 0])].

End Examples.

(** * The numeric functions in binary64 arithmetic

    The definitions above compute with exact rationals.  pandas computes
    with IEEE 754 doubles, and rounding can move a percentile across a cell,
    separate two quotients that are equal as fractions, or leave a column
    that differs only in its last bits far from standardized.  The module
    below writes [feature_cleaner] and [get_feature] over Rocq's primitive
    binary64 floats, operation by operation as pandas and NumPy perform them;
    NaN is the NaN of the format.  Two things depend on the NumPy build: the
    formula that interpolates between two order statistics, and the order in
    which a column is added up.  Both builds are written out, and every
    general statement holds for each choice. *)

From Stdlib Require Floats Uint63.

Module F64.
Import PrimFloat.
Local Open Scope float_scope.
#[local] Set Warnings "-inexact-float".

Definition f64 : Type := PrimFloat.float.

(** A count as a double. *)
Definition of_nat (n : nat) : f64 := of_uint63 (Uint63.of_Z (Z.of_nat n)).

(** NumPy before 1.20 weighs the two neighbours, [a*(1-t) + b*t]; from 1.20
    on it steps from the nearer one ([_lerp]). *)
Inductive interpolation : Type := weighted | lerp.

(** A reduction adds the values left to right, or, over a contiguous column
    of eight values or more, in eight interleaved partial sums (NumPy's
    pairwise summation). *)
Inductive summation : Type := sequential | pairwise.

Record numpy : Type := mkNumpy {
  interp : interpolation;
  summ : summation
}.

Definition interpolate (r : interpolation) (a b t : f64) : f64 :=
  match r with
  | weighted => a * (1 - t) + b * t
  | lerp => if 0.5 <=? t then b - (b - a) * (1 - t) else a + (b - a) * t
  end.

Definition sum_sequential (xs : list f64) : f64 := fold_left add xs 0.

Definition sum8 (r : list f64) : f64 :=
  match r with
  | [r0; r1; r2; r3; r4; r5; r6; r7] =>
      ((r0 + r1) + (r2 + r3)) + ((r4 + r5) + (r6 + r7))
  | _ => sum_sequential r
  end.

Fixpoint accumulate8 (fuel : nat) (r rest : list f64) : list f64 * list f64 :=
  match fuel with
  | O => (r, rest)
  | S fuel' =>
      if (8 <=? length rest)%nat
      then accumulate8 fuel' (zip_with add r (firstn 8 rest)) (skipn 8 rest)
      else (r, rest)
  end.

(** Between 8 and 128 values: eight running sums, combined in pairs, then
    the values left over. *)
Definition sum_block (xs : list f64) : f64 :=
  let (r, rest) := accumulate8 (length xs) (firstn 8 xs) (skipn 8 xs) in
  fold_left add rest (sum8 r).

Fixpoint sum_pairwise_rec (fuel : nat) (xs : list f64) : f64 :=
  if (length xs <? 8)%nat then sum_sequential xs
  else if (length xs <=? 128)%nat then sum_block xs
  else
    match fuel with
    | O => sum_block xs
    | S fuel' =>
        let n2 := (length xs / 2 - (length xs / 2) mod 8)%nat in
        sum_pairwise_rec fuel' (firstn n2 xs) + sum_pairwise_rec fuel' (skipn n2 xs)
    end.

Definition sum_pairwise (xs : list f64) : f64 :=
  0 + sum_pairwise_rec (length xs) xs.

Definition sum (np : numpy) (xs : list f64) : f64 :=
  match summ np with
  | sequential => sum_sequential xs
  | pairwise => sum_pairwise xs
  end.

(** The reductions skip NaN. *)
Definition notna_values (xs : list f64) : list f64 :=
  filter (fun x => negb (is_nan x)) xs.

(** [nanmean]: the sum over the count; 0/0, NaN, without values. *)
Definition mean_values (np : numpy) (xs : list f64) : f64 :=
  sum np xs / of_nat (length xs).

(** [nanvar] with [ddof=1]: NaN below two values, else the sum of the
    squared distances to the mean over the count less one. *)
Definition var_values (np : numpy) (xs : list f64) : f64 :=
  if (length xs <=? 1)%nat then nan
  else
    let avg := sum np xs / of_nat (length xs) in
    sum np (map (fun x => (avg - x) * (avg - x)) xs) / of_nat (length xs - 1).

Definition std_values (np : numpy) (xs : list f64) : f64 :=
  sqrt (var_values np xs).

Definition fmax (a b : f64) : f64 := if b <=? a then a else b.
Definition fmin (a b : f64) : f64 := if a <=? b then a else b.

Definition max_values (xs : list f64) : f64 :=
  match xs with [] => nan | x :: t => fold_left fmax t x end.

Definition min_values (xs : list f64) : f64 :=
  match xs with [] => nan | x :: t => fold_left fmin t x end.

Fixpoint insert (x : f64) (xs : list f64) : list f64 :=
  match xs with
  | [] => [x]
  | y :: ys => if x <=? y then x :: y :: ys else y :: insert x ys
  end.

Definition sort_values (xs : list f64) : list f64 := fold_right insert [] xs.

(** The integer part of a position between 0 and [fuel]: the last index,
    counting up from [i], that is not above [pos]. *)
Fixpoint floor_index (fuel i : nat) (pos : f64) : nat :=
  match fuel with
  | O => i
  | S fuel' => if of_nat (S i) <=? pos then floor_index fuel' (S i) pos else i
  end.

(** [np.percentile] of sorted values.  pandas passes the threshold times
    100 and NumPy divides it by 100 again; the position is that threshold
    times [n - 1]. *)
Definition interpolate_linear (np : numpy) (sorted : list f64) (q : f64) : f64 :=
  match sorted with
  | [] => nan
  | x0 :: _ =>
      let n := length sorted in
      let pos := q * 100 / 100 * of_nat (n - 1) in
      let lo := floor_index (n - 1) 0 pos in
      let t := pos - of_nat lo in
      let a := nth lo sorted x0 in
      let b := nth (Nat.min (S lo) (n - 1)) sorted x0 in
      interpolate (interp np) a b t
  end.

Definition quantile_values (np : numpy) (xs : list f64) (q : f64) : f64 :=
  interpolate_linear np (sort_values (notna_values xs)) q.

Definition check_percentile (q : f64) : bool := (0 <=? q) && (q <=? 1).

Definition reduce_columns {L T} (f : list f64 -> T) (df : DataFrame L f64) : list T :=
  map (fun j => f (notna_values (column nan j df))) (seq 0 (length (columns df))).

Definition mean {L} (np : numpy) (df : DataFrame L f64) : list f64 :=
  reduce_columns (mean_values np) df.
Definition var {L} (np : numpy) (df : DataFrame L f64) : list f64 :=
  reduce_columns (var_values np) df.
Definition std {L} (np : numpy) (df : DataFrame L f64) : list f64 :=
  reduce_columns (std_values np) df.
Definition max {L} (df : DataFrame L f64) : list f64 := reduce_columns max_values df.
Definition min {L} (df : DataFrame L f64) : list f64 := reduce_columns min_values df.

Definition percentile_series {L} (np : numpy) (df : DataFrame L f64) (q : f64)
  : list f64 :=
  map (fun j => quantile_values np (column nan j df) q) (seq 0 (length (columns df))).

Definition quantile {L} (np : numpy) (df : DataFrame L f64) (qs : list f64)
  : result (DataFrame f64 f64) :=
  if forallb check_percentile qs then
    Ok (mkDF (columns df) (map (fun q => (q, percentile_series np df q)) qs))
  else Raise ValueError.

Definition series_lt_frame {L} (s : list f64) (df : DataFrame L f64)
  : DataFrame L bool :=
  mkDF (columns df) (map (fun r => (fst r, zip_with ltb s (snd r))) (rows df)).

Definition frame_lt_series {L} (df : DataFrame L f64) (s : list f64)
  : DataFrame L bool :=
  mkDF (columns df) (map (fun r => (fst r, zip_with ltb (snd r) s)) (rows df)).

Definition getitem_mask {L} (df : DataFrame L f64) (msk : DataFrame L bool)
  : DataFrame L f64 :=
  mkDF (columns df)
       (zip_with (fun r m => (fst r, zip_with (fun c (b : bool) => if b then c else nan)
                                               (snd r) (snd m)))
                 (rows df) (rows msk)).

Definition frame_sub_series {L} (df : DataFrame L f64) (s : list f64)
  : DataFrame L f64 :=
  mkDF (columns df) (map (fun r => (fst r, zip_with sub (snd r) s)) (rows df)).

Definition frame_div_series {L} (df : DataFrame L f64) (s : list f64)
  : DataFrame L f64 :=
  mkDF (columns df) (map (fun r => (fst r, zip_with div (snd r) s)) (rows df)).

(** Lines 93 to 99. *)
Definition feature_cleaner_new_df {L} (np : numpy) (df : DataFrame L f64)
    (low high : f64) : result (DataFrame L f64) :=
  match quantile np df [low; high] with
  | Raise e => Raise e
  | Ok quantile =>
      let msk_in_range :=
        frame_and (series_lt_frame (iloc quantile 0) df)
                  (frame_lt_series df (iloc quantile 1)) in
      let new_df := getitem_mask df msk_in_range in
      Ok (dropna is_nan new_df)
  end.

Definition feature_cleaner {L} (np : numpy) (df : DataFrame L f64)
    (low high : f64) : result (DataFrame L f64) :=
  match feature_cleaner_new_df np df low high with
  | Raise e => Raise e
  | Ok new_df =>
      Ok (frame_div_series (frame_sub_series new_df (mean np new_df)) (std np new_df))
  end.

(** The masked cells of a row, and the rows the trim keeps. *)
Definition masked_cells (qlow qhigh : list f64) (cells : list f64) : list f64 :=
  zip_with (fun c (b : bool) => if b then c else nan) cells
           (zip_with andb (zip_with ltb qlow cells) (zip_with ltb cells qhigh)).

Definition kept_row {L} (qlow qhigh : list f64) (r : L * list f64) : bool :=
  negb (existsb is_nan (masked_cells qlow qhigh (snd r))).

(** ** [get_feature]

    As pandas before 2.0 runs it (the notebook's kernel is Python 3.7): the
    frame handed to the function of [groupby.apply] includes the CLASS
    column, and [np.max] and [np.min] of a frame reduce it column by
    column. *)

Fixpoint unique_sorted (xs : list f64) : list f64 :=
  match xs with
  | [] => []
  | x :: t =>
      match t with
      | [] => [x]
      | y :: _ => if x =? y then unique_sorted t else x :: unique_sorted t
      end
  end.

Record DataFrameGroupBy (L : Type) : Type := mkGroupBy {
  obj_columns : list string;
  groups : list (f64 * DataFrame L f64)
}.

Arguments mkGroupBy {L} _ _.
Arguments obj_columns {L} _.
Arguments groups {L} _.

Definition groupby {L} (df : DataFrame L f64) (by_ : string)
  : result (DataFrameGroupBy L) :=
  match find_column by_ (columns df) with
  | None => Raise KeyError
  | Some j =>
      Ok (mkGroupBy (columns df)
            (map (fun k => (k, mkDF (columns df)
                                    (filter (fun r => nth j (snd r) nan =? k) (rows df))))
                 (unique_sorted (sort_values (notna_values (column nan j df))))))
  end.

Definition groupby_apply {L} (g : DataFrameGroupBy L)
    (func : DataFrame L f64 -> list f64) : DataFrame f64 f64 :=
  mkDF (obj_columns g) (map (fun kv => (fst kv, func (snd kv))) (groups g)).

Definition apply {L} (df : DataFrame L f64) (func : list f64 -> f64)
  : list (string * f64) :=
  zip_with (fun name j => (name, func (column nan j df)))
           (columns df) (seq 0 (length (columns df))).

Definition series_sub (a b : list f64) : list f64 := zip_with sub a b.
Definition series_div (a b : list f64) : list f64 := zip_with div a b.
Definition series_max (x : list f64) : f64 := max_values (notna_values x).
Definition series_min (x : list f64) : f64 := min_values (notna_values x).

(** [Series.idxmax()]: NaN counts as minus infinity and the first largest
    value wins; NaN ([None]) when every value is NaN, an error on an empty
    series. *)
Definition nan_to_neg_infinity (v : f64) : f64 :=
  if is_nan v then neg_infinity else v.

Fixpoint argmax_from (best : string * f64) (s : list (string * f64)) : string :=
  match s with
  | [] => fst best
  | (name, v) :: t =>
      if snd best <? nan_to_neg_infinity v
      then argmax_from (name, nan_to_neg_infinity v) t
      else argmax_from best t
  end.

Definition idxmax (s : list (string * f64)) : result (option string) :=
  match s with
  | [] => Raise ValueError
  | (name, v) :: t =>
      if forallb (fun p => is_nan (snd p)) s then Ok None
      else Ok (Some (argmax_from (name, nan_to_neg_infinity v) t))
  end.

Definition get_feature {L} (np : numpy) (df : DataFrame L f64)
  : result (option string) :=
  match groupby df "CLASS" with
  | Raise e => Raise e
  | Ok df_by_class =>
      let df_w_ratio :=
        groupby_apply df_by_class
          (fun x => series_div (series_sub (max x) (min x)) (var np x)) in
      let df_sort := apply df_w_ratio (fun x => series_max x / series_min x) in
      idxmax df_sort
  end.

(** The feature values of column [j] within the rows of class [c]. *)
Definition class_values {L} (df : DataFrame L f64) (jc j : nat) (c : f64) : list f64 :=
  notna_values
    (map (fun r => nth j (snd r) nan)
         (filter (fun r => nth jc (snd r) nan =? c) (rows df))).

(** R and K in the words of the specification, in doubles:
    R_c = (max - min) / variance within class c, and
    K = max(R_0, R_1) / min(R_0, R_1). *)
Definition R_spec {L} (np : numpy) (df : DataFrame L f64) (jc j : nat) (c : f64) : f64 :=
  (max_values (class_values df jc j c) - min_values (class_values df jc j c))
  / var_values np (class_values df jc j c).

Definition K_spec {L} (np : numpy) (df : DataFrame L f64) (jc j : nat) : f64 :=
  fmax (R_spec np df jc j 0) (R_spec np df jc j 1)
  / fmin (R_spec np df jc j 0) (R_spec np df jc j 1).

(** ** Tables *)

Module Examples.
Open Scope string_scope.

Definition builds : list numpy :=
  [mkNumpy weighted sequential; mkNumpy weighted pairwise;
   mkNumpy lerp sequential; mkNumpy lerp pairwise].

(** The docstring table of [feature_cleaner]. *)
Definition testdf : DataFrame string f64 :=
  mkDF ["0"; "1"; "2"]
       [("A", [0.1; 0.2; 0.1]);
        ("B", [5.0; 10.0; 20.0]);
        ("C", [0.2; 0.3; 0.5]);
        ("D", [0.3; 0.2; 0.7]);
        ("E", [-0.1; -0.2; -0.4]);
        ("F", [0.1; 0.4; 0.3]);
        ("G", [-0.5; 0.3; -0.2]);
        ("H", [-10.0; 0.3; 1.0])].

Definition testdf_trimmed : DataFrame string f64 :=
  mkDF ["0"; "1"; "2"]
       [("A", [0.1; 0.2; 0.1]);
        ("C", [0.2; 0.3; 0.5]);
        ("D", [0.3; 0.2; 0.7]);
        ("F", [0.1; 0.4; 0.3]);
        ("G", [-0.5; 0.3; -0.2])].

(** A column whose inner values differ in the last bit only. *)
Definition ulp_df : DataFrame Z f64 :=
  mkDF ["x"]
       [(0%Z, [0.0]);
        (1%Z, [0.1]);
        (2%Z, [0.1]);
        (3%Z, [0.10000000000000002]);
        (4%Z, [1.0])].

(** The same with three equal inner values. *)
Definition const_df : DataFrame Z f64 :=
  mkDF ["x"]
       [(0%Z, [0.0]);
        (1%Z, [0.1]);
        (2%Z, [0.1]);
        (3%Z, [0.1]);
        (4%Z, [1.0])].

(** The integers 0 to [n - 1], as labels and as cells. *)
Definition grid (n : nat) : DataFrame Z f64 :=
  mkDF ["x"] (map (fun i => (Z.of_nat i, [of_nat i])) (seq 0 n)).

(** Three rows, of which the trim at 0.1 and 0.9 leaves the middle one. *)
Definition one_df : DataFrame Z f64 :=
  mkDF ["a"] [(0%Z, [1]); (1%Z, [2]); (2%Z, [3])].

(** The docstring table of [get_feature]. *)
Definition classdf : DataFrame Z f64 :=
  mkDF ["A"; "B"; "C"; "CLASS"]
       [(0%Z, [0.1; 0.2; 0.1; 0]);
        (1%Z, [5.0; 10.0; 20.0; 0]);
        (2%Z, [0.2; 0.3; 0.5; 1]);
        (3%Z, [0.3; 0.2; 0.7; 0]);
        (4%Z, [-0.1; -0.2; -0.4; 1]);
        (5%Z, [0.1; 0.4; 0.3; 0]);
        (6%Z, [-0.5; 0.3; -0.2; 0])].

(** Two features with the same K as fractions, 14/3: the second is three
    times the first. *)
Definition tiedf : DataFrame Z f64 :=
  mkDF ["A"; "B"; "CLASS"]
       [(0%Z, [7; 21; 0]);
        (1%Z, [7; 21; 0]);
        (2%Z, [6; 18; 0]);
        (3%Z, [3; 9; 1]);
        (4%Z, [1; 3; 1]);
        (5%Z, [7; 21; 1])].

End Examples.
End F64.

(** * Properties *)

Unset Implicit Arguments.

(** ** One-hot encoding *)

Section OneHotFacts.
Import OneHot.
Variable A : Type.
Variable eq_dec : forall x y : A, {x = y} + {x <> y}.

Lemma one_hot_length (label : A) (labels : list A) :
  length (one_hot_encode eq_dec label labels) = length labels.
Proof. unfold one_hot_encode. apply length_map. Qed.

Lemma one_hot_nth (label : A) (labels : list A) (i : nat) (l : A) :
  nth_error labels i = Some l ->
  nth_error (one_hot_encode eq_dec label labels) i
  = Some (if eq_dec label l then 1%Z else 0%Z).
Proof.
  intros H. unfold one_hot_encode.
  rewrite nth_error_map, H. reflexivity.
Qed.

Lemma one_hot_sum (label : A) (labels : list A) :
  sum (one_hot_encode eq_dec label labels)
  = Z.of_nat (count_occ eq_dec labels label).
Proof.
  induction labels as [|l ls IH]; [reflexivity|].
  unfold one_hot_encode, sum in *. cbn [map fold_right count_occ].
  rewrite IH.
  destruct (eq_dec label l) as [e|n], (eq_dec l label) as [e'|n'];
    try congruence; lia.
Qed.

Lemma one_hot_absent (label : A) (labels : list A) :
  ~ In label labels ->
  one_hot_encode eq_dec label labels = repeat 0%Z (length labels).
Proof.
  induction labels as [|l ls IH]; intros Hn; [reflexivity|].
  unfold one_hot_encode in *. cbn [map length repeat].
  destruct (eq_dec label l) as [e|n].
  - exfalso. apply Hn. left. now symmetry.
  - f_equal. apply IH. intros Hin. apply Hn. now right.
Qed.

Lemma one_hot_one_iff (label : A) (labels : list A) (i : nat) :
  nth_error (one_hot_encode eq_dec label labels) i = Some 1%Z
  <-> nth_error labels i = Some label.
Proof.
  unfold one_hot_encode. rewrite nth_error_map.
  destruct (nth_error labels i) as [l|]; cbn; [|split; discriminate].
  destruct (eq_dec label l) as [e|n]; split; intros H;
    try discriminate; try congruence.
Qed.
End OneHotFacts.

(** C5.  With unique candidates, the encoding has the length of the candidate
    list, holds 1 exactly at the position of the label and 0 elsewhere, is all
    zeros when the label is absent, sums to 1 when the label is present and to
    0 when it is absent; the two docstring examples evaluate as listed. *)
Theorem one_hot_encode_unique :
  forall (A : Type) (eq_dec : forall x y : A, {x = y} + {x <> y})
         (label : A) (labels : list A),
    NoDup labels ->
    let out := OneHot.one_hot_encode eq_dec label labels in
    length out = length labels
    /\ (forall i l, nth_error labels i = Some l ->
                    nth_error out i = Some (if eq_dec label l then 1%Z else 0%Z))
    /\ (forall i, nth_error out i = Some 1%Z <-> nth_error labels i = Some label)
    /\ (forall i j, nth_error out i = Some 1%Z -> nth_error out j = Some 1%Z -> i = j)
    /\ (~ In label labels -> out = repeat 0%Z (length labels))
    /\ (In label labels -> OneHot.sum out = 1%Z)
    /\ (~ In label labels -> OneHot.sum out = 0%Z)
    /\ OneHot.one_hot_encode string_dec "pink"%string
         ["blue"; "red"; "pink"; "yellow"]%string = [0; 0; 1; 0]%Z
    /\ OneHot.one_hot_encode string_dec "f"%string
         ["a"; "b"; "c"; "d"; "e"]%string = [0; 0; 0; 0; 0]%Z.
Proof.
  intros A eq_dec label labels Hnd out. subst out.
  split; [apply one_hot_length|].
  split; [intros i l; apply one_hot_nth|].
  split; [intros i; apply one_hot_one_iff|].
  split.
  { intros i j Hi Hj.
    apply one_hot_one_iff in Hi. apply one_hot_one_iff in Hj.
    apply (proj1 (NoDup_nth_error labels) Hnd); [|congruence].
    apply nth_error_Some. congruence. }
  split; [apply one_hot_absent|].
  split.
  { intros Hin. rewrite one_hot_sum.
    assert (count_occ eq_dec labels label = 1%nat) as ->; [|reflexivity].
    apply NoDup_count_occ' with (decA := eq_dec) in Hin; assumption. }
  split.
  { intros Hn. rewrite one_hot_sum.
    apply (count_occ_not_In eq_dec) in Hn. now rewrite Hn. }
  split; reflexivity.
Qed.

Lemma one_hot_encode_unique_witness :
  NoDup ["blue"; "red"; "pink"; "yellow"]%string
  /\ length (OneHot.one_hot_encode string_dec "pink"%string
               ["blue"; "red"; "pink"; "yellow"]%string) = 4%nat.
Proof.
  assert (Hnd : NoDup ["blue"; "red"; "pink"; "yellow"]%string).
  { repeat constructor; simpl; intuition discriminate. }
  split; [exact Hnd|].
  exact (proj1 (one_hot_encode_unique string string_dec "pink"%string _ Hnd)).
Defined.

Example one_hot_encode_docstring :
  OneHot.one_hot_encode string_dec "b"%string ["a"; "b"; "c"; "d"; "e"]%string
  = [0; 1; 0; 0; 0]%Z.
Proof. reflexivity. Qed.

(** C10.  For any candidate list, duplicates included, position [i] of the
    encoding is 1 when [labels[i]] equals the label and 0 otherwise, so the
    encoding holds as many 1s as the label has occurrences; the function is
    total. *)
Theorem one_hot_encode_all_matches :
  forall (A : Type) (eq_dec : forall x y : A, {x = y} + {x <> y})
         (label : A) (labels : list A),
    let out := OneHot.one_hot_encode eq_dec label labels in
    length out = length labels
    /\ (forall i l, nth_error labels i = Some l ->
                    nth_error out i = Some (if eq_dec label l then 1%Z else 0%Z))
    /\ OneHot.sum out = Z.of_nat (count_occ eq_dec labels label)
    /\ OneHot.one_hot_encode string_dec "a"%string ["a"; "b"; "a"]%string
       = [1; 0; 1]%Z.
Proof.
  intros A eq_dec label labels out. subst out.
  split; [apply one_hot_length|].
  split; [intros i l; apply one_hot_nth|].
  split; [apply one_hot_sum|reflexivity].
Qed.

(** ** The sentinel filter *)

Section NanProcessor.
Variable L : Type.
Implicit Types (df : DataFrame L Scalar) (s c : Scalar).

Lemma replaced_cells_clean s (cells : list Scalar) :
  clean_row s cells = true ->
  map (fun c => if to_replace_mask s c then NaN else c) cells = cells.
Proof.
  induction cells as [|c cs IH]; cbn; [reflexivity|].
  intros H. apply andb_prop in H as [Hc Hcs].
  apply andb_prop in Hc as [_ Hm].
  apply negb_true_iff in Hm. rewrite Hm. f_equal. auto.
Qed.

Lemma replaced_cells_isna s (cells : list Scalar) :
  existsb isna (map (fun c => if to_replace_mask s c then NaN else c) cells)
  = negb (clean_row s cells).
Proof.
  induction cells as [|c cs IH]; cbn; [reflexivity|].
  rewrite IH, negb_andb.
  destruct (to_replace_mask s c); cbn.
  - now rewrite andb_false_r.
  - now rewrite andb_true_r, negb_involutive.
Qed.

Lemma nan_processor_rows df s :
  rows (nan_processor df s) = filter (fun r => clean_row s (snd r)) (rows df).
Proof.
  unfold nan_processor, dropna, replace. cbn [rows].
  induction (rows df) as [|[l cells] rs IH]; [reflexivity|].
  cbn [map filter fst snd]. rewrite replaced_cells_isna, negb_involutive, IH.
  destruct (clean_row s cells) eqn:E; [|reflexivity].
  now rewrite replaced_cells_clean.
Qed.

Lemma nan_processor_columns df s :
  columns (nan_processor df s) = columns df.
Proof. reflexivity. Qed.

Lemma clean_cell_iff s c :
  negb (isna c) && negb (to_replace_mask s c) = true
  <-> isna c = false /\ scalar_eqb c s = false.
Proof.
  rewrite andb_true_iff, !negb_true_iff. unfold to_replace_mask.
  destruct s, c; cbn; intuition congruence.
Qed.

Lemma clean_row_iff s (cells : list Scalar) :
  clean_row s cells = true
  <-> forall c, In c cells -> isna c = false /\ scalar_eqb c s = false.
Proof.
  unfold clean_row. rewrite forallb_forall.
  split; intros H c Hc; apply clean_cell_iff; auto.
Qed.

Lemma filter_twice (A : Type) (p : A -> bool) (xs : list A) :
  filter p (filter p xs) = filter p xs.
Proof.
  induction xs as [|x xs IH]; cbn; [reflexivity|].
  destruct (p x) eqn:E; cbn; rewrite ?E, IH; reflexivity.
Qed.
End NanProcessor.

(** The docstring example: rows 0 and 2 hold the sentinel and are dropped,
    rows 1 and 3 keep their labels. *)
Example nan_processor_docstring :
  nan_processor Examples.blah_df (Str "blah")
  = mkDF ["A"; "B"; "C"]%string
         [(1%Z, [Num 0.2; Num 0.1; Num 5]);
          (3%Z, [Num 0.7; Num 0.2; Num 1])].
Proof. reflexivity. Qed.

(** C4, as the code has it.  The output of [nan_processor] holds no missing
    cell and no cell equal to the sentinel, and a row survives exactly when
    none of its original cells equals the sentinel and none is missing
    already. *)
Theorem nan_processor_exact :
  forall (L : Type) (df : DataFrame L Scalar) (s : Scalar),
    (forall l r c, In (l, r) (rows (nan_processor df s)) -> In c r ->
                   isna c = false /\ scalar_eqb c s = false)
    /\ (forall l r, In (l, r) (rows (nan_processor df s))
                    <-> In (l, r) (rows df)
                        /\ forall c, In c r -> isna c = false /\ scalar_eqb c s = false).
Proof.
  intros L df s.
  assert (Hiff : forall l r, In (l, r) (rows (nan_processor df s))
                    <-> In (l, r) (rows df)
                        /\ forall c, In c r -> isna c = false /\ scalar_eqb c s = false).
  { intros l r. rewrite nan_processor_rows, filter_In. cbn [snd].
    now rewrite clean_row_iff. }
  split; [|exact Hiff].
  intros l r c Hin Hc. apply Hiff in Hin. now apply Hin.
Qed.

(** C4 as stated fails: a row with a cell that is missing from the start is
    dropped although none of its cells equals the sentinel. *)
Lemma nan_processor_drops_preexisting_nan :
  let df := Examples.nan_df in
  let s := Str "blah" in
  let r := [NaN; Num 1] in
  In (0%Z, r) (rows df)
  /\ (forall c, In c r -> scalar_eqb c s = false)
  /\ ~ In (0%Z, r) (rows (nan_processor df s)).
Proof.
  cbv zeta. split; [left; reflexivity|]. split.
  - intros c [<-|[<-|[]]]; reflexivity.
  - intros [H|[]]. discriminate H.
Qed.

(** C7.  Filtering twice with the same sentinel is filtering once. *)
Theorem nan_processor_idempotent :
  forall (L : Type) (df : DataFrame L Scalar) (s : Scalar),
    nan_processor (nan_processor df s) s = nan_processor df s.
Proof.
  intros L df s.
  assert (Hr : rows (nan_processor (nan_processor df s) s)
               = rows (nan_processor df s)).
  { rewrite (nan_processor_rows L (nan_processor df s) s).
    rewrite (nan_processor_rows L df s). apply filter_twice. }
  assert (Hc : columns (nan_processor (nan_processor df s) s)
               = columns (nan_processor df s)) by reflexivity.
  destruct (nan_processor (nan_processor df s) s) as [c1 r1].
  destruct (nan_processor df s) as [c2 r2].
  cbn in Hr, Hc. now subst.
Qed.

(** ** The percentile trim *)

Section ZipWith.
Variables A B C D : Type.

Lemma zip_with_map_l (f : A -> B -> C) (g : D -> A) (h : D -> B) (xs : list D) :
  zip_with f (map g xs) (map h xs) = map (fun x => f (g x) (h x)) xs.
Proof. induction xs; cbn; congruence. Qed.

Lemma zip_with_map_r (f : A -> B -> C) (h : A -> B) (xs : list A) :
  zip_with f xs (map h xs) = map (fun x => f x (h x)) xs.
Proof. induction xs; cbn; congruence. Qed.

Lemma zip_with_length (f : A -> B -> C) (xs : list A) (ys : list B) :
  length xs = length ys -> length (zip_with f xs ys) = length xs.
Proof.
  revert ys. induction xs as [|x xs IH]; intros [|y ys]; cbn; try congruence.
  intros H. f_equal. apply IH. congruence.
Qed.
End ZipWith.

Lemma Qlt_bool_iff (x y : Q) : Qlt_bool x y = true <-> x < y.
Proof.
  unfold Qlt_bool. rewrite negb_true_iff. split.
  - intros H. apply Qnot_le_lt. intros Hle.
    apply Qle_bool_iff in Hle. congruence.
  - intros H. destruct (Qle_bool y x) eqn:E; [|reflexivity].
    apply Qle_bool_iff in E. exfalso. exact (Qlt_not_le _ _ H E).
Qed.

Lemma flt_iff (a b : float) :
  flt a b = true <-> exists x y, a = Some x /\ b = Some y /\ x < y.
Proof.
  destruct a as [x|], b as [y|]; cbn.
  - rewrite Qlt_bool_iff. split.
    + intros H. now exists x, y.
    + intros (x' & y' & [= <-] & [= <-] & H). exact H.
  - split; [discriminate|]. intros (? & ? & _ & [=] & _).
  - split; [discriminate|]. intros (? & ? & [=] & _).
  - split; [discriminate|]. intros (? & ? & [=] & _).
Qed.

Lemma check_percentile_iff (q : Q) :
  check_percentile q = true <-> 0 <= q /\ q <= 1.
Proof.
  unfold check_percentile. now rewrite andb_true_iff, !Qle_bool_iff.
Qed.

Section FeatureCleaner.
Variable L : Type.
Implicit Types (df : DataFrame L float) (low high : Q).

Lemma quantile_accepts df low high :
  check_percentile low = true -> check_percentile high = true ->
  quantile df [low; high]
  = Ok (mkDF (columns df)
             [(low, percentile_series df low); (high, percentile_series df high)]).
Proof.
  intros Hl Hh. unfold quantile. cbn [forallb]. now rewrite Hl, Hh.
Qed.

Lemma quantile_rejects df low high :
  check_percentile low && check_percentile high = false ->
  quantile df [low; high] = Raise ValueError.
Proof.
  intros H. unfold quantile. cbn [forallb].
  rewrite andb_true_r. now rewrite H.
Qed.

(** The frame before scaling: the rows of [df] whose masked cells are all
    present, each with its masked cells. *)
Lemma new_df_accepts df low high :
  check_percentile low = true -> check_percentile high = true ->
  feature_cleaner_new_df df low high
  = Ok (mkDF (columns df)
          (filter (fun r => negb (existsb isnan (snd r)))
             (map (fun r => (fst r,
                             masked_cells (percentile_series df low)
                                          (percentile_series df high) (snd r)))
                  (rows df)))).
Proof.
  intros Hl Hh. unfold feature_cleaner_new_df.
  rewrite quantile_accepts by assumption.
  unfold dropna, getitem_mask, frame_and, series_lt_frame, frame_lt_series, iloc.
  cbn [columns rows map nth snd].
  rewrite zip_with_map_l, zip_with_map_r. reflexivity.
Qed.

Lemma new_df_rejects df low high :
  check_percentile low && check_percentile high = false ->
  feature_cleaner_new_df df low high = Raise ValueError.
Proof.
  intros H. unfold feature_cleaner_new_df. now rewrite quantile_rejects.
Qed.

Lemma new_df_columns df low high new_df :
  feature_cleaner_new_df df low high = Ok new_df -> columns new_df = columns df.
Proof.
  destruct (check_percentile low && check_percentile high) eqn:E.
  - apply andb_prop in E as [Hl Hh]. rewrite new_df_accepts by assumption.
    intros [= <-]. reflexivity.
  - rewrite new_df_rejects by assumption. discriminate.
Qed.

Lemma new_df_index df low high new_df :
  feature_cleaner_new_df df low high = Ok new_df ->
  index new_df
  = map fst (filter (kept_row (percentile_series df low) (percentile_series df high))
                    (rows df)).
Proof.
  destruct (check_percentile low && check_percentile high) eqn:E.
  - apply andb_prop in E as [Hl Hh]. rewrite new_df_accepts by assumption.
    intros [= <-]. unfold index. cbn [rows].
    induction (rows df) as [|r rs IH]; [reflexivity|].
    cbn [map filter snd fst]. unfold kept_row at 1.
    destruct (negb _); cbn [map fst]; now rewrite IH.
  - rewrite new_df_rejects by assumption. discriminate.
Qed.

Lemma scaled_index (new_df : DataFrame L float) (m : list float) (s : list (option R)) :
  index (frame_div_series (frame_sub_series new_df m) s) = index new_df.
Proof.
  unfold index, frame_div_series, frame_sub_series. cbn [rows].
  rewrite !map_map. reflexivity.
Qed.

(** [feature_cleaner] returns whenever both thresholds lie in [0, 1], and
    raises otherwise. *)
Lemma feature_cleaner_accepts df low high :
  check_percentile low = true -> check_percentile high = true ->
  exists new_df,
    feature_cleaner_new_df df low high = Ok new_df
    /\ feature_cleaner df low high
       = Ok (frame_div_series (frame_sub_series new_df (mean new_df)) (std new_df)).
Proof.
  intros Hl Hh. unfold feature_cleaner.
  rewrite new_df_accepts by assumption. eexists. split; reflexivity.
Qed.

Lemma feature_cleaner_rejects df low high :
  check_percentile low && check_percentile high = false ->
  feature_cleaner df low high = Raise ValueError.
Proof.
  intros H. unfold feature_cleaner. now rewrite new_df_rejects.
Qed.

Lemma feature_cleaner_inv df low high out :
  feature_cleaner df low high = Ok out ->
  exists new_df,
    feature_cleaner_new_df df low high = Ok new_df
    /\ out = frame_div_series (frame_sub_series new_df (mean new_df)) (std new_df).
Proof.
  unfold feature_cleaner.
  destruct (feature_cleaner_new_df df low high) as [new_df|e]; [|discriminate].
  intros [= <-]. now exists new_df.
Qed.
End FeatureCleaner.

(** The mask, cell by cell. *)
Lemma masked_cells_cons (lo hi c : float) (qlow qhigh cells : list float) :
  masked_cells (lo :: qlow) (hi :: qhigh) (c :: cells)
  = (if flt lo c && flt c hi then c else None) :: masked_cells qlow qhigh cells.
Proof. reflexivity. Qed.

Lemma masked_cell_kept (lo hi c : float) :
  isnan (if flt lo c && flt c hi then c else None) = false
  <-> exists x ql qh, c = Some x /\ lo = Some ql /\ hi = Some qh /\ ql < x /\ x < qh.
Proof.
  destruct (flt lo c && flt c hi) eqn:E.
  - apply andb_prop in E as [H1 H2].
    apply flt_iff in H1 as (ql & x & -> & -> & H1).
    apply flt_iff in H2 as (x' & qh & [= <-] & -> & H2).
    cbn. split; [|reflexivity]. intros _. now exists x, ql, qh.
  - cbn. split; [discriminate|].
    intros (x & ql & qh & -> & -> & -> & H1 & H2).
    cbn in E. apply Qlt_bool_iff in H1, H2. rewrite H1, H2 in E. discriminate.
Qed.

Lemma kept_cells_iff (F G : nat -> float) (n : nat) :
  forall (s : nat) (cells : list float),
    length cells = n ->
    (existsb isnan (masked_cells (map F (seq s n)) (map G (seq s n)) cells) = false
     <-> forall j, (j < n)%nat ->
           exists x ql qh, nth_error cells j = Some (Some x)
                           /\ F (s + j)%nat = Some ql /\ G (s + j)%nat = Some qh
                           /\ ql < x /\ x < qh).
Proof.
  induction n as [|n IH]; intros s cells Hlen.
  - destruct cells; [|discriminate]. cbn. split; [intros _ j Hj; lia|reflexivity].
  - destruct cells as [|c cells]; [discriminate|]. injection Hlen as Hlen.
    cbn [seq map]. rewrite masked_cells_cons. cbn [existsb].
    rewrite orb_false_iff, masked_cell_kept, (IH (S s) cells Hlen).
    split.
    + intros [(x & ql & qh & -> & HF & HG & H1 & H2) Hrest] [|j] Hj.
      * exists x, ql, qh. rewrite Nat.add_0_r. cbn. auto.
      * destruct (Hrest j ltac:(lia)) as (x' & ql' & qh' & Hn & HF' & HG' & H').
        exists x', ql', qh'. cbn [nth_error].
        replace (s + S j)%nat with (S s + j)%nat by lia. auto.
    + intros H. split.
      * destruct (H 0%nat ltac:(lia)) as (x & ql & qh & Hn & HF & HG & H').
        rewrite Nat.add_0_r in HF, HG. cbn in Hn. injection Hn as ->.
        now exists x, ql, qh.
      * intros j Hj.
        destruct (H (S j) ltac:(lia)) as (x & ql & qh & Hn & HF & HG & H').
        replace (s + S j)%nat with (S s + j)%nat in HF, HG by lia.
        exists x, ql, qh. cbn [nth_error] in Hn. auto.
Qed.

Lemma kept_cells_id (F G : nat -> float) (n : nat) :
  forall (s : nat) (cells : list float),
    length cells = n ->
    existsb isnan (masked_cells (map F (seq s n)) (map G (seq s n)) cells) = false ->
    masked_cells (map F (seq s n)) (map G (seq s n)) cells = cells.
Proof.
  induction n as [|n IH]; intros s cells Hlen.
  - destruct cells; [reflexivity|discriminate].
  - destruct cells as [|c cells]; [discriminate|]. injection Hlen as Hlen.
    cbn [seq map]. rewrite masked_cells_cons. cbn [existsb].
    intros H. apply orb_false_iff in H as [Hc Hrest].
    rewrite (IH _ _ Hlen Hrest). f_equal.
    destruct (flt (F s) c && flt c (G s)); [reflexivity|].
    destruct c; [discriminate Hc|reflexivity].
Qed.

(** On a well-formed frame the trim keeps whole rows, unchanged. *)
Lemma new_df_rows (L : Type) (df : DataFrame L float) (low high : Q) new_df :
  wf df ->
  feature_cleaner_new_df df low high = Ok new_df ->
  rows new_df
  = filter (kept_row (percentile_series df low) (percentile_series df high)) (rows df).
Proof.
  intros Hwf.
  destruct (check_percentile low && check_percentile high) eqn:E.
  2:{ rewrite new_df_rejects by assumption. discriminate. }
  apply andb_prop in E as [Hl Hh]. rewrite new_df_accepts by assumption.
  intros [= <-]. cbn [rows]. unfold wf in Hwf.
  induction Hwf as [|r rs Hr _ IH]; [reflexivity|].
  cbn [map filter snd fst]. unfold kept_row at 1. rewrite IH.
  destruct (existsb isnan _) eqn:E; cbn [negb]; [reflexivity|].
  unfold percentile_series in *.
  rewrite kept_cells_id; [now destruct r|exact Hr|exact E].
Qed.

Lemma testdf_wf : wf Examples.testdf.
Proof. repeat constructor. Qed.

Lemma testdf_new_df :
  feature_cleaner_new_df Examples.testdf 0.01 0.99 = Ok Examples.testdf_trimmed.
Proof. vm_compute. reflexivity. Qed.

(** The percentiles of the docstring table, in lowest terms: position
    0.01 * 7 between the two smallest values, 0.99 * 7 between the two
    largest. *)
Example testdf_percentiles :
  map (option_map Qred) (percentile_series Examples.testdf 0.01)
  = [Some (-1867 # 200); Some (-43 # 250); Some (-193 # 500)]
  /\ map (option_map Qred) (percentile_series Examples.testdf 0.99)
     = [Some (4671 # 1000); Some (1166 # 125); Some (1867 # 100)].
Proof. split; vm_compute; reflexivity. Qed.




(** C9, as the code has it.  [feature_cleaner] has no check of its own; the
    percentile computation raises exactly when a threshold lies outside the
    closed interval from 0 to 1, and for all other thresholds, the end points
    and [low >= high] included, a table is returned. *)
Theorem feature_cleaner_rejects_iff :
  forall (L : Type) (df : DataFrame L float) (low high : Q),
    (feature_cleaner df low high = Raise ValueError
     <-> ~ (0 <= low /\ low <= 1 /\ 0 <= high /\ high <= 1))
    /\ ((exists out, feature_cleaner df low high = Ok out)
        <-> 0 <= low /\ low <= 1 /\ 0 <= high /\ high <= 1).
Proof.
  intros L df low high.
  destruct (check_percentile low && check_percentile high) eqn:E.
  - apply andb_prop in E as [Hl Hh].
    destruct (feature_cleaner_accepts L df low high Hl Hh) as (new_df & _ & Hout).
    apply check_percentile_iff in Hl, Hh.
    split; split.
    + rewrite Hout. discriminate.
    + intros Hn. exfalso. apply Hn. tauto.
    + intros _. tauto.
    + intros _. eexists. exact Hout.
  - pose proof (feature_cleaner_rejects L df low high E) as Hr.
    assert (Hn : ~ (0 <= low /\ low <= 1 /\ 0 <= high /\ high <= 1)).
    { intros (A1 & A2 & A3 & A4).
      assert (check_percentile low = true) as Hl
          by (apply check_percentile_iff; tauto).
      assert (check_percentile high = true) as Hh
          by (apply check_percentile_iff; tauto).
      rewrite Hl, Hh in E. discriminate. }
    split; split.
    + intros _. exact Hn.
    + intros _. exact Hr.
    + intros [out Hout]. rewrite Hr in Hout. discriminate.
    + intros H. contradiction.
Qed.

(** C9 as stated fails: thresholds with [low >= high], and a threshold on
    the boundary of the unit interval, both yield a table. *)
Lemma feature_cleaner_accepts_bad_thresholds :
  (0.01 <= 0.99 /\ exists out, feature_cleaner Examples.testdf 0.99 0.01 = Ok out)
  /\ (~ 0 < 0 /\ exists out, feature_cleaner Examples.testdf 0 0.5 = Ok out).
Proof.
  split; split.
  - discriminate.
  - destruct (feature_cleaner_accepts _ Examples.testdf 0.99 0.01
                eq_refl eq_refl) as (new_df & _ & Hout).
    eexists. exact Hout.
  - intros H. discriminate H.
  - destruct (feature_cleaner_accepts _ Examples.testdf 0 0.5
                eq_refl eq_refl) as (new_df & _ & Hout).
    eexists. exact Hout.
Qed.

(** ** Scaling to zero mean and unit deviation *)

Section RealSums.
Local Open Scope R_scope.

Lemma Q2R_inject_Z (z : Z) : Q2R (inject_Z z) = IZR z.
Proof. unfold Q2R, inject_Z. cbn. lra. Qed.

Lemma Q2R_count (xs : list Q) : Q2R (count xs) = INR (length xs).
Proof. unfold count. rewrite Q2R_inject_Z. symmetry. apply INR_IZR_INZ. Qed.

Lemma Rsum_cons (z : R) (zs : list R) : Rsum (z :: zs) = z + Rsum zs.
Proof. reflexivity. Qed.

Lemma Q2R_Qsum (xs : list Q) : Q2R (Qsum xs) = Rsum (map Q2R xs).
Proof.
  induction xs as [|x xs IH].
  - unfold Q2R. cbn. lra.
  - cbn [map]. rewrite Rsum_cons, <- IH, <- Q2R_plus. reflexivity.
Qed.

Lemma Rsum_map_scale (A : Type) (g : A -> R) (k : R) (xs : list A) :
  Rsum (map (fun x => g x * k) xs) = Rsum (map g xs) * k.
Proof.
  induction xs as [|x xs IH]; [cbn; lra|].
  cbn [map]. rewrite !Rsum_cons, IH. lra.
Qed.

Lemma Rsum_map_shift (A : Type) (g : A -> R) (c : R) (xs : list A) :
  Rsum (map (fun x => g x - c) xs) = Rsum (map g xs) - INR (length xs) * c.
Proof.
  induction xs as [|x xs IH]; [cbn; lra|].
  cbn [map length]. rewrite S_INR, !Rsum_cons, IH. lra.
Qed.

Lemma Rsum_nonneg (zs : list R) :
  Forall (fun z => 0 <= z) zs -> 0 <= Rsum zs.
Proof. induction 1; [cbn; lra|rewrite Rsum_cons; lra]. Qed.

Lemma Rsum_zero_terms (zs : list R) :
  Forall (fun z => 0 <= z) zs -> Rsum zs = 0 -> Forall (fun z => z = 0) zs.
Proof.
  induction 1 as [|z zs Hz Hzs IH]; [constructor|].
  rewrite Rsum_cons. intros Hs. pose proof (Rsum_nonneg zs Hzs).
  constructor; [lra|apply IH; lra].
Qed.
End RealSums.

Lemma count_nonzero (xs : list Q) : xs <> [] -> ~ count xs == 0.
Proof.
  intros Hne Heq. apply Qeq_eqR in Heq. rewrite Q2R_count in Heq.
  replace (Q2R 0) with 0%R in Heq by (unfold Q2R; cbn; lra).
  destruct xs as [|x xs]; [congruence|].
  cbn [length] in Heq. rewrite S_INR in Heq.
  pose proof (pos_INR (length xs)). lra.
Qed.

Lemma mean_values_inv (xs : list Q) (m : Q) :
  mean_values xs = Some m ->
  xs <> [] /\ Q2R m = (Rsum (map Q2R xs) / INR (length xs))%R.
Proof.
  destruct xs as [|x xs]; [discriminate|].
  unfold mean_values. intros [= <-]. split; [discriminate|].
  rewrite Q2R_div by (apply count_nonzero; discriminate).
  rewrite <- (Q2R_Qsum (x :: xs)), Q2R_count. reflexivity.
Qed.

Lemma var_values_inv (xs : list Q) (v : Q) :
  var_values xs = Some v ->
  exists m, mean_values xs = Some m
    /\ (2 <= length xs)%nat
    /\ Q2R v = (Rsum (map (fun x => (Q2R x - Q2R m) * (Q2R x - Q2R m)) xs)
                / (INR (length xs) - 1))%R.
Proof.
  unfold var_values.
  destruct (mean_values xs) as [m|] eqn:Hm; [|discriminate].
  destruct (Nat.leb_spec (length xs) 1) as [Hle|Hlt]; [discriminate|].
  intros [= <-]. exists m. split; [reflexivity|]. split; [lia|].
  assert (Hc : Q2R (count xs - 1) = (INR (length xs) - 1)%R).
  { rewrite Q2R_minus, Q2R_count. unfold Q2R. cbn. lra. }
  assert (Hpos : (1 < INR (length xs))%R).
  { replace 1%R with (INR 1) by reflexivity. now apply lt_INR. }
  rewrite Q2R_div.
  2:{ intros Heq. apply Qeq_eqR in Heq. rewrite Hc in Heq.
      replace (Q2R 0) with 0%R in Heq by (unfold Q2R; cbn; lra). lra. }
  rewrite Hc, Q2R_Qsum, map_map. f_equal. f_equal.
  apply map_ext. intros x. now rewrite Q2R_mult, Q2R_minus.
Qed.

(** A column with two different values has a positive sample variance. *)
Lemma var_values_positive (xs : list Q) (x y : Q) :
  In x xs -> In y xs -> ~ x == y ->
  exists v, var_values xs = Some v /\ 0 < v.
Proof.
  intros Hx Hy Hxy.
  assert (Hlen : (2 <= length xs)%nat).
  { destruct xs as [|a [|b xs]]; cbn; try lia.
    - destruct Hx.
    - destruct Hx as [<-|[]], Hy as [<-|[]]. exfalso. apply Hxy. reflexivity. }
  destruct (var_values xs) as [v|] eqn:Hv.
  2:{ exfalso. unfold var_values in Hv.
      destruct xs as [|a xs]; [cbn in Hlen; lia|]. cbn [mean_values] in Hv.
      destruct (Nat.leb_spec (length (a :: xs)) 1); [lia|discriminate]. }
  exists v. split; [reflexivity|].
  destruct (var_values_inv xs v Hv) as (m & Hm & _ & Hq).
  apply Rlt_Qlt. replace (Q2R 0) with 0%R by (unfold Q2R; cbn; lra).
  rewrite Hq.
  set (sq := map (fun x => ((Q2R x - Q2R m) * (Q2R x - Q2R m))%R) xs) in *.
  assert (Hnn : Forall (fun z => (0 <= z)%R) sq).
  { apply Forall_forall. intros z Hz. apply in_map_iff in Hz as (a & <- & _).
    exact (Rle_0_sqr (Q2R a - Q2R m)). }
  assert (Hn : (1 < INR (length xs))%R).
  { replace 1%R with (INR 1) by reflexivity. apply lt_INR. lia. }
  assert (Hs : (0 < Rsum sq)%R).
  { destruct (Rsum_nonneg sq Hnn) as [Hlt|Heq]; [exact Hlt|].
    exfalso. symmetry in Heq.
    pose proof (Rsum_zero_terms sq Hnn Heq) as Hz.
    rewrite Forall_forall in Hz.
    assert (Hzx : forall a, In a xs -> Q2R a = Q2R m).
    { intros a Ha.
      assert (Hsq : ((Q2R a - Q2R m) * (Q2R a - Q2R m) = 0)%R).
      { apply Hz. unfold sq. apply in_map_iff. now exists a. }
      nra. }
    apply Hxy. apply eqR_Qeq. rewrite (Hzx x Hx), (Hzx y Hy). reflexivity. }
  apply Rdiv_lt_0_compat; lra.
Qed.

(** In exact arithmetic, scaled values have mean 0 and sample standard
    deviation 1. *)
Lemma zscores_mean_std (xs : list Q) (m v : Q) :
  mean_values xs = Some m -> var_values xs = Some v -> 0 < v ->
  let zs := map (fun x => ((Q2R x - Q2R m) / sqrt (Q2R v))%R) xs in
  Rmean zs = 0%R /\ Rstd zs = 1%R.
Proof.
  intros Hm Hv Hpos. cbv zeta.
  destruct (mean_values_inv xs m Hm) as [Hne HM].
  destruct (var_values_inv xs v Hv) as (m' & Hm' & Hlen & HV).
  assert (m' = m) by congruence. subst m'.
  assert (HvR : (0 < Q2R v)%R).
  { replace 0%R with (Q2R 0) by (unfold Q2R; cbn; lra). now apply Qlt_Rlt. }
  assert (Hs : (0 < sqrt (Q2R v))%R) by now apply sqrt_lt_R0.
  assert (Hss : (sqrt (Q2R v) * sqrt (Q2R v) = Q2R v)%R) by (apply sqrt_sqrt; lra).
  assert (Hn : (1 < INR (length xs))%R).
  { replace 1%R with (INR 1) by reflexivity. apply lt_INR. lia. }
  set (s := sqrt (Q2R v)) in *.
  set (zs := map (fun x => ((Q2R x - Q2R m) / s)%R) xs).
  assert (Hlz : length zs = length xs) by apply length_map.
  assert (Hsum : Rsum zs = 0%R).
  { unfold zs, Rdiv.
    rewrite (Rsum_map_scale Q (fun x => (Q2R x - Q2R m)%R) (/ s) xs).
    rewrite (Rsum_map_shift Q Q2R (Q2R m) xs), HM.
    field. split; lra. }
  assert (Hmean : Rmean zs = 0%R).
  { unfold Rmean. rewrite Hsum, Hlz. field. lra. }
  split; [exact Hmean|].
  unfold Rstd. rewrite Hmean, Hlz.
  assert (Hsq : Rsum (map (fun z => ((z - 0) * (z - 0))%R) zs)
                = (Rsum (map (fun x => (Q2R x - Q2R m) * (Q2R x - Q2R m)) xs)
                   * / Q2R v)%R).
  { unfold zs. rewrite map_map.
    rewrite <- (Rsum_map_scale Q (fun x => ((Q2R x - Q2R m) * (Q2R x - Q2R m))%R)).
    f_equal. apply map_ext. intros x. cbv beta.
    rewrite <- Hss. field. lra. }
  rewrite Hsq.
  replace (Rsum (map (fun x => ((Q2R x - Q2R m) * (Q2R x - Q2R m))%R) xs))
    with (Q2R v * (INR (length xs) - 1))%R.
  2:{ rewrite HV. field. lra. }
  replace (Q2R v * (INR (length xs) - 1) * / Q2R v / (INR (length xs) - 1))%R
    with 1%R by (field; split; lra).
  apply sqrt_1.
Qed.

Lemma nth_zip_with (A B C : Type) (f : A -> B -> C) :
  forall (xs : list A) (ys : list B) (j : nat) (dx : A) (dy : B) (dz : C),
    (j < length xs)%nat -> (j < length ys)%nat ->
    nth j (zip_with f xs ys) dz = f (nth j xs dx) (nth j ys dy).
Proof.
  induction xs as [|x xs IH]; intros [|y ys] [|j] dx dy dz Hx Hy;
    cbn in *; try lia; [reflexivity|].
  apply IH; lia.
Qed.

Lemma nth_reduce_columns (L T : Type) (f : list Q -> T) (df : DataFrame L float)
      (j : nat) (d : T) :
  (j < length (columns df))%nat ->
  nth j (reduce_columns f df) d = f (notna_values (column None j df)).
Proof.
  intros Hj. unfold reduce_columns.
  rewrite (nth_indep _ d (f (notna_values (column None 0%nat df)))).
  2:{ now rewrite length_map, length_seq. }
  rewrite (map_nth (fun j => f (notna_values (column None j df)))).
  now rewrite seq_nth.
Qed.

Lemma length_reduce_columns (L T : Type) (f : list Q -> T) (df : DataFrame L float) :
  length (reduce_columns f df) = length (columns df).
Proof. unfold reduce_columns. now rewrite length_map, length_seq. Qed.

(** The rows the trim keeps, on a well-formed frame. *)
Lemma new_df_row_iff (L : Type) (df : DataFrame L float) (low high : Q) new_df :
  wf df ->
  feature_cleaner_new_df df low high = Ok new_df ->
  forall l r,
    In (l, r) (rows new_df)
    <-> In (l, r) (rows df)
        /\ forall j, (j < length (columns df))%nat ->
             exists x ql qh,
               nth_error r j = Some (Some x)
               /\ quantile_values (column None j df) low = Some ql
               /\ quantile_values (column None j df) high = Some qh
               /\ ql < x /\ x < qh.
Proof.
  intros Hwf Hnew l r.
  rewrite (new_df_rows L df low high new_df Hwf Hnew), filter_In.
  unfold kept_row, percentile_series. cbn [snd]. rewrite negb_true_iff.
  split; intros [Hin Hk]; (split; [exact Hin|]).
  - assert (Hlen : length r = length (columns df)).
    { unfold wf in Hwf. rewrite Forall_forall in Hwf. exact (Hwf _ Hin). }
    exact (proj1 (kept_cells_iff _ _ _ 0%nat r Hlen) Hk).
  - assert (Hlen : length r = length (columns df)).
    { unfold wf in Hwf. rewrite Forall_forall in Hwf. exact (Hwf _ Hin). }
    exact (proj2 (kept_cells_iff _ _ _ 0%nat r Hlen) Hk).
Qed.

Lemma new_df_wf (L : Type) (df : DataFrame L float) (low high : Q) new_df :
  wf df -> feature_cleaner_new_df df low high = Ok new_df -> wf new_df.
Proof.
  intros Hwf Hnew. unfold wf in *.
  rewrite (new_df_columns L df low high new_df Hnew).
  rewrite (new_df_rows L df low high new_df Hwf Hnew).
  rewrite Forall_forall in *. intros r Hr. apply filter_In in Hr as [Hr _]. auto.
Qed.


(** ** The worked example of [feature_cleaner] *)

Section SquareRootBounds.
Local Open Scope R_scope.

Lemma Q2R_zero : Q2R 0 = 0.
Proof. unfold Q2R. cbn. lra. Qed.

Lemma Qle_bool_false_Rlt (x y : Q) : Qle_bool x y = false -> Q2R y < Q2R x.
Proof.
  intros H. apply Qlt_Rlt. apply Qnot_le_lt. intros Hle.
  apply Qle_bool_iff in Hle. congruence.
Qed.

Lemma Qle_bool_true_Rle (x y : Q) : Qle_bool x y = true -> Q2R x <= Q2R y.
Proof. intros H. apply Qle_Rle. now apply Qle_bool_iff. Qed.

Lemma le_mul_sqrt_sound (a b v : Q) :
  (0 < v)%Q -> le_mul_sqrt a b v = true -> Q2R a <= Q2R b * sqrt (Q2R v).
Proof.
  intros Hv H.
  assert (HvR : 0 < Q2R v) by (rewrite <- Q2R_zero; now apply Qlt_Rlt).
  pose proof (sqrt_lt_R0 _ HvR) as Hs.
  pose proof (sqrt_sqrt (Q2R v) (Rlt_le _ _ HvR)) as Hss.
  set (s := sqrt (Q2R v)) in *.
  unfold le_mul_sqrt in H.
  destruct (Qle_bool 0 b) eqn:Hb.
  - apply Qle_bool_true_Rle in Hb. rewrite Q2R_zero in Hb.
    destruct (Qle_bool a 0) eqn:Ha.
    + apply Qle_bool_true_Rle in Ha. rewrite Q2R_zero in Ha. nra.
    + apply Qle_bool_false_Rlt in Ha. rewrite Q2R_zero in Ha.
      apply Qle_bool_true_Rle in H. rewrite !Q2R_mult, <- Hss in H.
      assert (0 <= Q2R b * s) by nra.
      destruct (Rle_lt_dec (Q2R a) (Q2R b * s)) as [Hle|Hlt]; [exact Hle|].
      exfalso. nra.
  - apply Qle_bool_false_Rlt in Hb. rewrite Q2R_zero in Hb.
    apply andb_prop in H as [Ha H].
    apply Qle_bool_true_Rle in Ha. rewrite Q2R_zero in Ha.
    apply Qle_bool_true_Rle in H. rewrite !Q2R_mult, <- Hss in H.
    assert (Q2R b * s < 0) by nra.
    destruct (Rle_lt_dec (Q2R a) (Q2R b * s)) as [Hle|Hlt]; [exact Hle|].
    exfalso. nra.
Qed.

Lemma close_check_sound (tol x v e : Q) :
  (0 < v)%Q -> close_check tol x v e = true ->
  close_to tol (fdivR (Some x) (Some (sqrt (Q2R v)))) e.
Proof.
  intros Hv H. unfold close_check in H. apply andb_prop in H as [Hhi Hlo].
  apply le_mul_sqrt_sound in Hhi, Hlo; try assumption.
  rewrite Q2R_plus in Hhi. rewrite !Q2R_opp, Q2R_minus in Hlo.
  assert (HvR : 0 < Q2R v) by (rewrite <- Q2R_zero; now apply Qlt_Rlt).
  pose proof (sqrt_lt_R0 _ HvR) as Hs.
  set (s := sqrt (Q2R v)) in *.
  cbn [fdivR]. destruct (Req_dec_T s 0) as [E|_]; [lra|].
  eexists. split; [reflexivity|].
  assert (Hz : Q2R x = Q2R x / s * s) by (field; lra).
  set (z := Q2R x / s) in *.
  apply Rabs_le. split; nra.
Qed.
End SquareRootBounds.

Lemma testdf_centered_eq :
  frame_sub_series Examples.testdf_trimmed (mean Examples.testdf_trimmed)
  = Examples.testdf_centered.
Proof. vm_compute. reflexivity. Qed.

Lemma testdf_var_eq : var Examples.testdf_trimmed = Examples.testdf_var.
Proof. vm_compute. reflexivity. Qed.

Lemma testdf_output :
  feature_cleaner Examples.testdf 0.01 0.99
  = Ok (frame_div_series Examples.testdf_centered
          (map (option_map (fun v => sqrt (Q2R v))) Examples.testdf_var)).
Proof.
  unfold feature_cleaner. rewrite testdf_new_df.
  unfold std. now rewrite testdf_centered_eq, testdf_var_eq.
Qed.

(** C6.  On the table of the docstring with thresholds 0.01 and 0.99, rows
    B, E and H are dropped, rows A, C, D, F and G remain in that order, and
    every scaled cell lies within 0.0000005 of the value the docstring lists
    for it. *)
Theorem feature_cleaner_worked_example :
  exists out,
    feature_cleaner Examples.testdf 0.01 0.99 = Ok out
    /\ index Examples.testdf = ["A"; "B"; "C"; "D"; "E"; "F"; "G"; "H"]%string
    /\ columns out = ["0"; "1"; "2"]%string
    /\ index out = ["A"; "C"; "D"; "F"; "G"]%string
    /\ Forall2 (fun r e => fst r = fst e
                           /\ Forall2 (close_to 0.0000005) (snd r) (snd e))
               (rows out) Examples.testdf_expected.
Proof.
  eexists. split; [exact testdf_output|].
  split; [reflexivity|]. split; [reflexivity|]. split; [reflexivity|].
  unfold frame_div_series, Examples.testdf_centered, Examples.testdf_var,
    Examples.testdf_expected.
  cbn [rows map zip_with option_map fst snd].
  repeat (apply Forall2_cons || apply Forall2_nil || split);
    try reflexivity;
    (apply close_check_sound; [reflexivity|vm_compute; reflexivity]).
Qed.
(** ** Feature ranking *)

Lemma unique_sorted_cons2 (x y : Q) (t : list Q) :
  unique_sorted (x :: y :: t)
  = if Qeq_bool x y then unique_sorted (y :: t) else x :: unique_sorted (y :: t).
Proof. reflexivity. Qed.

(** *** Range and variance within a class *)

Lemma Qmax'_bounds (a b : Q) : a <= Qmax' a b /\ b <= Qmax' a b.
Proof.
  unfold Qmax'. destruct (Qle_bool a b) eqn:E.
  - apply Qle_bool_iff in E. split; [exact E|apply Qle_refl].
  - split; [apply Qle_refl|].
    apply Qlt_le_weak, Qnot_le_lt. intros H. apply Qle_bool_iff in H. congruence.
Qed.

Lemma Qmin'_bounds (a b : Q) : Qmin' a b <= a /\ Qmin' a b <= b.
Proof.
  unfold Qmin'. destruct (Qle_bool a b) eqn:E.
  - apply Qle_bool_iff in E. split; [apply Qle_refl|exact E].
  - split; [|apply Qle_refl].
    apply Qlt_le_weak, Qnot_le_lt. intros H. apply Qle_bool_iff in H. congruence.
Qed.

Lemma fold_max_bounds (t : list Q) :
  forall x, x <= fold_left Qmax' t x
            /\ forall y, In y t -> y <= fold_left Qmax' t x.
Proof.
  induction t as [|z t IH]; intros x; cbn [fold_left].
  - split; [apply Qle_refl|intros y []].
  - destruct (IH (Qmax' x z)) as [H1 H2].
    destruct (Qmax'_bounds x z) as [Hx Hz].
    split; [now apply Qle_trans with (Qmax' x z)|].
    intros y [<-|Hy]; [now apply Qle_trans with (Qmax' x z)|now apply H2].
Qed.

Lemma fold_min_bounds (t : list Q) :
  forall x, fold_left Qmin' t x <= x
            /\ forall y, In y t -> fold_left Qmin' t x <= y.
Proof.
  induction t as [|z t IH]; intros x; cbn [fold_left].
  - split; [apply Qle_refl|intros y []].
  - destruct (IH (Qmin' x z)) as [H1 H2].
    destruct (Qmin'_bounds x z) as [Hx Hz].
    split; [now apply Qle_trans with (Qmin' x z)|].
    intros y [<-|Hy]; [now apply Qle_trans with (Qmin' x z)|now apply H2].
Qed.

Lemma max_values_bound (vs : list Q) (mx : Q) :
  max_values vs = Some mx -> forall x, In x vs -> x <= mx.
Proof.
  destruct vs as [|a t]; [discriminate|]. cbn [max_values]. intros [= <-] x Hx.
  destruct (fold_max_bounds t a) as [H1 H2].
  destruct Hx as [<-|Hx]; auto.
Qed.

Lemma min_values_bound (vs : list Q) (mn : Q) :
  min_values vs = Some mn -> forall x, In x vs -> mn <= x.
Proof.
  destruct vs as [|a t]; [discriminate|]. cbn [min_values]. intros [= <-] x Hx.
  destruct (fold_min_bounds t a) as [H1 H2].
  destruct Hx as [<-|Hx]; auto.
Qed.

Lemma Rsum_map_const (A : Type) (g : A -> R) (c : R) (xs : list A) :
  (forall x, In x xs -> g x = c) ->
  Rsum (map g xs) = (INR (length xs) * c)%R.
Proof.
  induction xs as [|x xs IH]; intros H; [cbn; lra|].
  cbn [map length]. rewrite S_INR, Rsum_cons, IH, (H x).
  - lra.
  - now left.
  - intros y Hy. apply H. now right.
Qed.

(** Equal values have sample variance zero. *)
Lemma var_values_constant (vs : list Q) (c v : Q) :
  (forall x, In x vs -> x == c) -> var_values vs = Some v -> v == 0.
Proof.
  intros Hc Hv.
  destruct (var_values_inv vs v Hv) as (m & Hm & Hlen & HV).
  destruct (mean_values_inv vs m Hm) as [_ HM].
  assert (Hn : (1 < INR (length vs))%R).
  { replace 1%R with (INR 1) by reflexivity. apply lt_INR. lia. }
  assert (HmR : Q2R m = Q2R c).
  { rewrite HM, (Rsum_map_const Q Q2R (Q2R c)).
    - field. lra.
    - intros x Hx. apply Qeq_eqR. now apply Hc. }
  apply eqR_Qeq. rewrite HV, Q2R_zero.
  rewrite (Rsum_map_const Q _ 0%R).
  - field. lra.
  - intros x Hx. rewrite HmR, (Qeq_eqR _ _ (Hc x Hx)). lra.
Qed.

(** A variance of zero is the variance of equal values only. *)
Lemma zero_variance_constant (vs : list Q) (v : Q) :
  var_values vs = Some v -> v == 0 ->
  forall x y, In x vs -> In y vs -> x == y.
Proof.
  intros Hv Hz x y Hx Hy.
  destruct (Qeq_dec x y) as [E|E]; [exact E|].
  destruct (var_values_positive vs x y Hx Hy E) as (v' & Hv' & Hpos).
  assert (v' = v) by congruence. subst v'.
  rewrite Hz in Hpos. discriminate Hpos.
Qed.

(** A positive variance means a positive range. *)
Lemma range_positive (vs : list Q) (v mx mn : Q) :
  var_values vs = Some v -> 0 < v ->
  max_values vs = Some mx -> min_values vs = Some mn ->
  mn < mx.
Proof.
  intros Hv Hpos Hmx Hmn.
  apply Qnot_le_lt. intros Hle.
  assert (Hc : forall x, In x vs -> x == mn).
  { intros x Hx. apply Qle_antisym.
    - apply Qle_trans with mx; [exact (max_values_bound vs mx Hmx x Hx)|exact Hle].
    - exact (min_values_bound vs mn Hmn x Hx). }
  pose proof (var_values_constant vs mn v Hc Hv) as Hz.
  rewrite Hz in Hpos. discriminate Hpos.
Qed.

Lemma var_values_nonempty (vs : list Q) (v : Q) :
  var_values vs = Some v ->
  exists mx mn, max_values vs = Some mx /\ min_values vs = Some mn.
Proof.
  destruct vs as [|a t]; [discriminate|]. intros _.
  eexists. eexists. split; reflexivity.
Qed.

(** The ratio R of a column with positive variance is the quotient of the
    specification, and it is positive. *)
Lemma ratio_positive (vs : list Q) (v : Q) :
  var_values vs = Some v -> 0 < v ->
  fdiv (fsub (max_values vs) (min_values vs)) (var_values vs)
  = Some ((get (max_values vs) - get (min_values vs)) / get (var_values vs))
  /\ 0 < (get (max_values vs) - get (min_values vs)) / get (var_values vs).
Proof.
  intros Hv Hpos.
  destruct (var_values_nonempty vs v Hv) as (mx & mn & Hmx & Hmn).
  pose proof (range_positive vs v mx mn Hv Hpos Hmx Hmn) as Hr.
  rewrite Hmx, Hmn, Hv. cbn [fsub fdiv get].
  assert (E : Qeq_bool v 0 = false).
  { destruct (Qeq_bool v 0) eqn:E; [|reflexivity].
    apply Qeq_bool_iff in E. rewrite E in Hpos. discriminate Hpos. }
  rewrite E. split; [reflexivity|].
  apply Qlt_shift_div_l; [exact Hpos|].
  rewrite Qmult_0_l. unfold Qminus. rewrite <- (Qplus_opp_r mn).
  now apply Qplus_lt_l.
Qed.

(** The ratio R of equal values is NaN. *)
Lemma ratio_constant (vs : list Q) (c : Q) :
  (forall x, In x vs -> x == c) ->
  fdiv (fsub (max_values vs) (min_values vs)) (var_values vs) = None.
Proof.
  intros Hc.
  destruct (var_values vs) as [v|] eqn:Hv.
  2:{ destruct (fsub _ _); reflexivity. }
  pose proof (var_values_constant vs c v Hc Hv) as Hz.
  destruct (fsub _ _) as [d|]; [|reflexivity].
  cbn [fdiv]. apply Qeq_bool_iff in Hz. now rewrite Hz.
Qed.

(** *** The first largest value *)

Lemma idxmax_from_split (t : list (string * float)) :
  forall (bn : string) (bv : Q),
  exists pre n v post,
    (bn, Some bv) :: t = pre ++ (n, Some v) :: post
    /\ idxmax_from (bn, bv) t = n
    /\ (forall n' v', In (n', Some v') pre -> v' < v)
    /\ (forall n' v', In (n', Some v') post -> v' <= v).
Proof.
  induction t as [|[n1 [v1|]] t IH]; intros bn bv.
  - exists [], bn, bv, []. repeat split; intros ? ? [].
  - cbn [idxmax_from snd]. destruct (Qlt_bool bv v1) eqn:E.
    + destruct (IH n1 v1) as (pre & n & v & post & Hs & Hi & Hpre & Hpost).
      exists ((bn, Some bv) :: pre), n, v, post.
      split; [cbn [app]; f_equal; exact Hs|]. split; [exact Hi|].
      split; [|exact Hpost].
      intros n' v' [Heq|Hin]; [|eauto].
      injection Heq as <- <-. apply Qlt_bool_iff in E.
      apply Qlt_le_trans with v1; [exact E|].
      destruct pre as [|p pre].
      * cbn [app] in Hs. injection Hs as _ <- _. apply Qle_refl.
      * cbn [app] in Hs. injection Hs as <- _.
        apply Qlt_le_weak. apply (Hpre n1). now left.
    + destruct (IH bn bv) as (pre & n & v & post & Hs & Hi & Hpre & Hpost).
      assert (Hle : v1 <= bv).
      { unfold Qlt_bool in E. apply negb_false_iff in E.
        now apply Qle_bool_iff. }
      destruct pre as [|p pre].
      * cbn [app] in Hs. injection Hs as <- <- <-.
        exists [], bn, bv, ((n1, Some v1) :: t).
        split; [reflexivity|]. split; [exact Hi|].
        split; [intros ? ? []|].
        intros n' v' [Heq|Hin]; [|eauto].
        injection Heq as <- <-. exact Hle.
      * cbn [app] in Hs. injection Hs as <- ->.
        exists ((bn, Some bv) :: (n1, Some v1) :: pre), n, v, post.
        split; [reflexivity|]. split; [exact Hi|]. split; [|exact Hpost].
        assert (Hb : bv < v) by (apply (Hpre bn); now left).
        intros n' v' [Heq|[Heq|Hin]].
        -- injection Heq as <- <-. exact Hb.
        -- injection Heq as <- <-. now apply Qle_lt_trans with bv.
        -- apply (Hpre n'). now right.
  - cbn [idxmax_from].
    destruct (IH bn bv) as (pre & n & v & post & Hs & Hi & Hpre & Hpost).
    destruct pre as [|p pre].
    + cbn [app] in Hs. injection Hs as <- <- <-.
      exists [], bn, bv, ((n1, None) :: t).
      split; [reflexivity|]. split; [exact Hi|].
      split; [intros ? ? []|].
      intros n' v' [Heq|Hin]; [discriminate Heq|eauto].
    + cbn [app] in Hs. injection Hs as <- ->.
      exists ((bn, Some bv) :: (n1, None) :: pre), n, v, post.
      split; [reflexivity|]. split; [exact Hi|]. split; [|exact Hpost].
      intros n' v' [Heq|[Heq|Hin]].
      * injection Heq as <- <-. apply (Hpre bn). now left.
      * discriminate Heq.
      * apply (Hpre n'). now right.
Qed.

Lemma first_valid_split (s : list (string * float)) :
  (exists n v, In (n, Some v) s) ->
  exists pre n v post,
    s = pre ++ (n, Some v) :: post
    /\ first_valid s = Some n
    /\ (forall n' v', In (n', Some v') pre -> v' < v)
    /\ (forall n' v', In (n', Some v') post -> v' <= v).
Proof.
  induction s as [|[n0 [v0|]] s IH]; intros (n1 & v1 & Hin).
  - destruct Hin.
  - cbn [first_valid].
    destruct (idxmax_from_split s n0 v0) as (pre & n & v & post & Hs & Hi & H).
    exists pre, n, v, post. split; [exact Hs|]. split; [now rewrite Hi|exact H].
  - destruct Hin as [Heq|Hin]; [discriminate Heq|].
    destruct IH as (pre & n & v & post & Hs & Hi & Hpre & Hpost);
      [now exists n1, v1|].
    exists ((n0, None) :: pre), n, v, post.
    split; [cbn [app]; f_equal; exact Hs|]. split; [exact Hi|].
    split; [|exact Hpost].
    intros n' v' [Heq|Hin']; [discriminate Heq|eauto].
Qed.

(** *** The frames [get_feature] builds *)

Lemma nth_error_zip_with_seq (A B : Type) (g : A -> nat -> B) (xs : list A) :
  forall (s j : nat) (x : A),
    nth_error xs j = Some x ->
    nth_error (zip_with g xs (seq s (length xs))) j = Some (g x (s + j)%nat).
Proof.
  induction xs as [|y xs IH]; intros s [|j] x H; cbn in *; try discriminate.
  - injection H as <-. now rewrite Nat.add_0_r.
  - rewrite (IH (S s) j x H). f_equal. f_equal. lia.
Qed.

Lemma zip_with_seq_length (A B : Type) (g : A -> nat -> B) (xs : list A) (s : nat) :
  length (zip_with g xs (seq s (length xs))) = length xs.
Proof. apply zip_with_length. now rewrite length_seq. Qed.

Lemma In_notna_values (xs : list float) (k : Q) :
  In k (notna_values xs) <-> In (Some k) xs.
Proof.
  unfold notna_values. rewrite in_flat_map. split.
  - intros ([x|] & Hx & Hk); [|destruct Hk].
    destruct Hk as [<-|[]]. exact Hx.
  - intros H. exists (Some k). split; [exact H|now left].
Qed.

Lemma feq_compat (a : float) (k c : Q) :
  k == c -> feq a (Some k) = feq a (Some c).
Proof. intros Hk. destruct a; cbn; [now rewrite Hk|reflexivity]. Qed.

Lemma feq_true (a : float) (c : Q) :
  feq a (Some c) = true -> exists x, a = Some x /\ x == c.
Proof.
  destruct a as [x|]; cbn; [|discriminate].
  intros H. exists x. split; [reflexivity|now apply Qeq_bool_iff].
Qed.

(** The ratio series of one group, column by column. *)
Lemma group_ratio_nth (L : Type) (G : DataFrame L float) (j : nat) :
  (j < length (columns G))%nat ->
  nth j (series_div (series_sub (max G) (min G)) (var G)) None
  = fdiv (fsub (max_values (notna_values (column None j G)))
               (min_values (notna_values (column None j G))))
         (var_values (notna_values (column None j G))).
Proof.
  intros Hj. unfold series_div, series_sub, max, min, var.
  rewrite (nth_zip_with float float float fdiv _ _ j None None None).
  2:{ rewrite zip_with_length; rewrite !length_reduce_columns; auto. }
  2:{ now rewrite length_reduce_columns. }
  rewrite (nth_zip_with float float float fsub _ _ j None None None).
  2,3: now rewrite length_reduce_columns.
  now rewrite !nth_reduce_columns.
Qed.

(** The values of a class column within one class are all that class. *)
Lemma class_column_constant (L : Type) (df : DataFrame L float) (jc : nat) (c : Q) :
  forall x, In x (class_values df jc jc c) -> x == c.
Proof.
  intros x Hx. unfold class_values in Hx.
  apply In_notna_values in Hx. apply in_map_iff in Hx as (r & Hr & Hin).
  apply filter_In in Hin as [_ Hf]. rewrite Hr in Hf.
  apply feq_true in Hf as (x' & [= <-] & Hx'). exact Hx'.
Qed.

Lemma find_column_nth (name : string) (cols : list string) (j : nat) :
  find_column name cols = Some j -> nth_error cols j = Some name.
Proof.
  revert j. induction cols as [|c cs IH]; intros j; cbn; [discriminate|].
  destruct (String.eqb_spec c name) as [->|Hne].
  - intros [= <-]. reflexivity.
  - destruct (find_column name cs) as [i|]; cbn; [|discriminate].
    intros [= <-]. cbn. now apply IH.
Qed.

Lemma zip_with_seq_ext (A B : Type) (g g' : A -> nat -> B) (xs : list A) :
  forall s : nat,
    (forall x j, (s <= j < s + length xs)%nat -> g x j = g' x j) ->
    zip_with g xs (seq s (length xs)) = zip_with g' xs (seq s (length xs)).
Proof.
  induction xs as [|x xs IH]; intros s H; [reflexivity|].
  cbn [length seq zip_with]. f_equal.
  - apply H. cbn [length]. lia.
  - apply IH. intros y j Hj. apply H. cbn [length]. lia.
Qed.


(** * Further properties *)

(** ** One-hot encoding *)

(** X1.  The encoding tells present labels apart: a label that occurs among
    the candidates has the same encoding as another label only when the two
    are equal, duplicates among the candidates or not. *)
Theorem one_hot_encode_injective :
  forall (A : Type) (eq_dec : forall x y : A, {x = y} + {x <> y})
         (a b : A) (labels : list A),
    In a labels ->
    OneHot.one_hot_encode eq_dec a labels = OneHot.one_hot_encode eq_dec b labels ->
    a = b.
Proof.
  intros A eq_dec a b labels Hin Heq.
  apply In_nth_error in Hin as (i & Hi).
  pose proof (proj2 (one_hot_one_iff A eq_dec a labels i) Hi) as H1.
  rewrite Heq in H1.
  pose proof (proj1 (one_hot_one_iff A eq_dec b labels i) H1) as H2.
  congruence.
Qed.

Lemma one_hot_encode_injective_witness :
  In "pink"%string ["blue"; "red"; "pink"; "yellow"]%string
  /\ "pink"%string = "pink"%string.
Proof.
  assert (Hin : In "pink"%string ["blue"; "red"; "pink"; "yellow"]%string)
    by (simpl; auto).
  split; [exact Hin|].
  exact (one_hot_encode_injective string string_dec "pink"%string "pink"%string
           _ Hin eq_refl).
Defined.

(** X2.  The encoding is all zeros exactly when the label is absent from the
    candidates; equivalently its sum is zero exactly then. *)
Theorem one_hot_encode_zero_iff :
  forall (A : Type) (eq_dec : forall x y : A, {x = y} + {x <> y})
         (label : A) (labels : list A),
    (OneHot.one_hot_encode eq_dec label labels = repeat 0%Z (length labels)
     <-> ~ In label labels)
    /\ (OneHot.sum (OneHot.one_hot_encode eq_dec label labels) = 0%Z
        <-> ~ In label labels).
Proof.
  intros A eq_dec label labels.
  assert (Hsum : OneHot.sum (OneHot.one_hot_encode eq_dec label labels) = 0%Z
                 <-> ~ In label labels).
  { rewrite one_hot_sum. rewrite (count_occ_not_In eq_dec). lia. }
  split; [|exact Hsum].
  split; [|apply one_hot_absent].
  intros Heq. apply Hsum. rewrite Heq.
  clear. induction (length labels) as [|n IH]; [reflexivity|].
  cbn [repeat]. unfold OneHot.sum in *. cbn [fold_right]. now rewrite IH.
Qed.

(** X3.  With unique candidates, the encoding of the candidate at position
    [i] is the unit vector of that position: [i] zeros, a one, and zeros up
    to the length of the candidate list. *)
Theorem one_hot_encode_unit_vector :
  forall (A : Type) (eq_dec : forall x y : A, {x = y} + {x <> y})
         (labels : list A) (i : nat) (label : A),
    NoDup labels ->
    nth_error labels i = Some label ->
    OneHot.one_hot_encode eq_dec label labels
    = repeat 0%Z i ++ 1%Z :: repeat 0%Z (length labels - i - 1).
Proof.
  intros A eq_dec labels i label Hnd Hi.
  apply nth_error_split in Hi as (l1 & l2 & -> & <-).
  apply NoDup_remove_2 in Hnd.
  assert (H1 : ~ In label l1) by (intros H; apply Hnd, in_or_app; now left).
  assert (H2 : ~ In label l2) by (intros H; apply Hnd, in_or_app; now right).
  unfold OneHot.one_hot_encode. rewrite map_app. cbn [map].
  fold (OneHot.one_hot_encode eq_dec label l1).
  fold (OneHot.one_hot_encode eq_dec label l2).
  rewrite (one_hot_absent A eq_dec label l1 H1).
  rewrite (one_hot_absent A eq_dec label l2 H2).
  destruct (eq_dec label label) as [_|n]; [|congruence].
  rewrite length_app. cbn [length].
  replace (length l1 + S (length l2) - length l1 - 1)%nat with (length l2) by lia.
  reflexivity.
Qed.

Lemma one_hot_encode_unit_vector_witness :
  OneHot.one_hot_encode string_dec "pink"%string
    ["blue"; "red"; "pink"; "yellow"]%string
  = ([0; 0] ++ 1 :: [0])%Z.
Proof.
  assert (Hnd : NoDup ["blue"; "red"; "pink"; "yellow"]%string).
  { repeat constructor; simpl; intuition discriminate. }
  exact (one_hot_encode_unit_vector string string_dec
           ["blue"; "red"; "pink"; "yellow"]%string 2 "pink"%string Hnd eq_refl).
Defined.

(** ** The sentinel filter *)

Lemma dropna_rows_clean (L : Type) (df : DataFrame L Scalar) (s : Scalar) :
  (forall l r c, In (l, r) (rows df) -> In c r -> to_replace_mask s c = false) ->
  filter (fun r => clean_row s (snd r)) (rows df)
  = filter (fun r => negb (existsb isna (snd r))) (rows df).
Proof.
  intros H. apply filter_ext_in. intros [l r] Hin. cbn [snd].
  unfold clean_row.
  assert (Hr : forall c, In c r -> to_replace_mask s c = false) by eauto.
  clear Hin H. induction r as [|c r IH]; [reflexivity|].
  cbn [forallb existsb]. rewrite negb_orb, IH by (intros; apply Hr; now right).
  rewrite (Hr c) by now left. cbn [negb]. now rewrite andb_true_r.
Qed.

Lemma filter_all (A : Type) (p : A -> bool) (xs : list A) :
  (forall x, In x xs -> p x = true) -> filter p xs = xs.
Proof.
  induction xs as [|x xs IH]; intros H; [reflexivity|].
  cbn [filter]. rewrite (H x) by now left. f_equal. apply IH.
  intros y Hy. apply H. now right.
Qed.

Lemma filter_none (A : Type) (p : A -> bool) (xs : list A) :
  (forall x, In x xs -> p x = false) -> filter p xs = [].
Proof.
  induction xs as [|x xs IH]; intros H; [reflexivity|].
  cbn [filter]. rewrite (H x) by now left. apply IH.
  intros y Hy. apply H. now right.
Qed.

Lemma frame_eq (L A : Type) (d1 d2 : DataFrame L A) :
  columns d1 = columns d2 -> rows d1 = rows d2 -> d1 = d2.
Proof. destruct d1, d2. cbn. intros -> ->. reflexivity. Qed.

(** X4.  When the sentinel occurs nowhere in the table, [nan_processor] is
    [dropna]: only the rows with a cell that was missing already are lost;
    and a table without the sentinel and without missing cells comes back
    unchanged. *)
Theorem nan_processor_absent_sentinel :
  forall (L : Type) (df : DataFrame L Scalar) (s : Scalar),
    (forall l r c, In (l, r) (rows df) -> In c r -> to_replace_mask s c = false) ->
    nan_processor df s = dropna isna df
    /\ ((forall l r c, In (l, r) (rows df) -> In c r -> isna c = false) ->
        nan_processor df s = df).
Proof.
  intros L df s Hs.
  assert (Hd : nan_processor df s = dropna isna df).
  { apply frame_eq; [reflexivity|].
    rewrite nan_processor_rows. now apply dropna_rows_clean. }
  split; [exact Hd|].
  intros Hn. rewrite Hd. apply frame_eq; [reflexivity|].
  unfold dropna. cbn [rows]. apply filter_all.
  intros [l r] Hin. cbn [snd]. apply negb_true_iff.
  destruct (existsb isna r) eqn:E; [|reflexivity].
  apply existsb_exists in E as (c & Hc & Hna).
  rewrite (Hn l r c Hin Hc) in Hna. discriminate Hna.
Qed.

Lemma nan_processor_absent_sentinel_witness :
  nan_processor Examples.nan_df (Str "blah")
  = mkDF ["A"; "B"]%string [(1%Z, [Num 2; Num 3])].
Proof.
  assert (Hs : forall l r c, In (l, r) (rows Examples.nan_df) -> In c r ->
                 to_replace_mask (Str "blah") c = false).
  { intros l r c Hin Hc. cbn in Hin.
    destruct Hin as [Heq|[Heq|[]]]; injection Heq as <- <-;
      cbn in Hc; destruct Hc as [<-|[<-|[]]]; reflexivity. }
  rewrite (proj1 (nan_processor_absent_sentinel Z Examples.nan_df (Str "blah") Hs)).
  reflexivity.
Defined.

(** X5.  When every row holds the sentinel or a missing cell, nothing is
    left: the result is the empty table with the columns of the input. *)
Theorem nan_processor_all_dropped :
  forall (L : Type) (df : DataFrame L Scalar) (s : Scalar),
    (forall l r, In (l, r) (rows df) ->
       exists c, In c r /\ (isna c = true \/ scalar_eqb c s = true)) ->
    nan_processor df s = mkDF (columns df) [].
Proof.
  intros L df s H. apply frame_eq; [reflexivity|].
  rewrite nan_processor_rows. cbn [rows]. apply filter_none.
  intros [l r] Hin. cbn [snd].
  destruct (clean_row s r) eqn:E; [|reflexivity].
  destruct (H l r Hin) as (c & Hc & Hbad).
  destruct (proj1 (clean_row_iff s r) E c Hc) as [Hna Heq].
  destruct Hbad; congruence.
Qed.

Lemma nan_processor_all_dropped_witness :
  nan_processor (mkDF ["A"; "B"]%string [(0%Z, [Num 1; Str "blah"]); (1%Z, [NaN; Num 2])])
                (Str "blah")
  = mkDF ["A"; "B"]%string [].
Proof.
  apply (nan_processor_all_dropped Z
           (mkDF ["A"; "B"]%string [(0%Z, [Num 1; Str "blah"]); (1%Z, [NaN; Num 2])])).
  intros l r Hin. cbn in Hin.
  destruct Hin as [Heq|[Heq|[]]]; injection Heq as <- <-.
  - exists (Str "blah"). split; [simpl; auto|right; reflexivity].
  - exists NaN. split; [simpl; auto|left; reflexivity].
Defined.

(** X6.  Filtering with two sentinels one after the other keeps exactly the
    rows free of missing cells and of both sentinels, so the order of the two
    filters does not matter. *)
Theorem nan_processor_sentinels_commute :
  forall (L : Type) (df : DataFrame L Scalar) (s t : Scalar),
    rows (nan_processor (nan_processor df s) t)
    = filter (fun r => clean_row s (snd r) && clean_row t (snd r)) (rows df)
    /\ nan_processor (nan_processor df s) t = nan_processor (nan_processor df t) s.
Proof.
  intros L df s t.
  assert (Hr : forall a b,
             rows (nan_processor (nan_processor df a) b)
             = filter (fun r => clean_row a (snd r) && clean_row b (snd r)) (rows df)).
  { intros a b. rewrite !nan_processor_rows.
    induction (rows df) as [|r rs IH]; [reflexivity|].
    cbn [filter]. destruct (clean_row a (snd r)); cbn [filter andb].
    - now rewrite IH.
    - exact IH. }
  split; [apply Hr|].
  apply frame_eq; [reflexivity|]. rewrite !Hr.
  apply filter_ext. intros r. apply andb_comm.
Qed.

(** ** Percentiles and the rows the trim loses *)

From Stdlib Require Lqa.
From Stdlib Require Import Sorted.

Lemma In_insert (x y : Q) (l : list Q) : In y (insert x l) <-> y = x \/ In y l.
Proof.
  induction l as [|z l IH]; cbn [insert].
  - cbn. intuition.
  - destruct (Qle_bool x z); cbn [In]; [|rewrite IH]; intuition.
Qed.

Lemma In_sort_values (y : Q) (l : list Q) : In y (sort_values l) <-> In y l.
Proof.
  induction l as [|x l IH]; [reflexivity|].
  cbn [sort_values fold_right]. fold (sort_values l).
  rewrite In_insert, IH. cbn. intuition.
Qed.

Lemma length_insert (x : Q) (l : list Q) : length (insert x l) = S (length l).
Proof.
  induction l as [|z l IH]; [reflexivity|].
  cbn [insert]. destruct (Qle_bool x z); cbn [length]; [reflexivity|now rewrite IH].
Qed.

Lemma frac_bounds (pos : Q) :
  0 <= pos - inject_Z (Qfloor pos) /\ pos - inject_Z (Qfloor pos) < 1.
Proof.
  pose proof (Qfloor_le pos) as H1. pose proof (Qlt_floor pos) as H2.
  rewrite inject_Z_plus in H2.
  change (inject_Z 1) with 1 in H2. split; Lqa.lra.
Qed.

Lemma nth_In_head (x0 : Q) (t : list Q) (i : nat) : In (nth i (x0 :: t) x0) (x0 :: t).
Proof.
  destruct (nth_in_or_default i (x0 :: t) x0) as [H|H]; [exact H|].
  rewrite H. now left.
Qed.

(** The value [interpolate_linear] returns, spelled out. *)
Lemma interpolate_linear_inv (sorted : list Q) (q v : Q) :
  interpolate_linear sorted q = Some v ->
  exists x0 t,
    sorted = x0 :: t
    /\ v = nth (Z.to_nat (Qfloor (q * inject_Z (Z.of_nat (length sorted - 1)))))
              sorted x0
           + (nth (Nat.min (S (Z.to_nat (Qfloor (q * inject_Z (Z.of_nat (length sorted - 1))))))
                           (length sorted - 1))
                  sorted x0
              - nth (Z.to_nat (Qfloor (q * inject_Z (Z.of_nat (length sorted - 1)))))
                    sorted x0)
             * (q * inject_Z (Z.of_nat (length sorted - 1))
                - inject_Z (Qfloor (q * inject_Z (Z.of_nat (length sorted - 1))))).
Proof.
  destruct sorted as [|x0 t]; [discriminate|].
  intros H. exists x0, t. split; [reflexivity|].
  unfold interpolate_linear in H. injection H as H. symmetry. exact H.
Qed.

(** An interpolated percentile is a mixture of two values of the column, so
    it lies between any two bounds of the column. *)
Lemma interpolate_lower (sorted : list Q) (q v lo : Q) :
  (forall y, In y sorted -> lo <= y) ->
  interpolate_linear sorted q = Some v -> lo <= v.
Proof.
  intros Hb H. apply interpolate_linear_inv in H as (x0 & t & Hs & ->).
  set (pos := q * inject_Z (Z.of_nat (length sorted - 1))).
  destruct (frac_bounds pos) as [F0 F1].
  rewrite Hs in Hb.
  pose proof (Hb _ (nth_In_head x0 t (Z.to_nat (Qfloor pos)))) as Ha.
  pose proof (Hb _ (nth_In_head x0 t
                      (Nat.min (S (Z.to_nat (Qfloor pos))) (length sorted - 1)))) as Hc.
  rewrite <- Hs in Ha, Hc.
  set (a := nth (Z.to_nat (Qfloor pos)) sorted x0) in *.
  set (b := nth (Nat.min (S (Z.to_nat (Qfloor pos))) (length sorted - 1)) sorted x0) in *.
  set (f := pos - inject_Z (Qfloor pos)) in *.
  Lqa.nra.
Qed.

Lemma interpolate_upper (sorted : list Q) (q v hi : Q) :
  (forall y, In y sorted -> y <= hi) ->
  interpolate_linear sorted q = Some v -> v <= hi.
Proof.
  intros Hb H. apply interpolate_linear_inv in H as (x0 & t & Hs & ->).
  set (pos := q * inject_Z (Z.of_nat (length sorted - 1))).
  destruct (frac_bounds pos) as [F0 F1].
  rewrite Hs in Hb.
  pose proof (Hb _ (nth_In_head x0 t (Z.to_nat (Qfloor pos)))) as Ha.
  pose proof (Hb _ (nth_In_head x0 t
                      (Nat.min (S (Z.to_nat (Qfloor pos))) (length sorted - 1)))) as Hc.
  rewrite <- Hs in Ha, Hc.
  set (a := nth (Z.to_nat (Qfloor pos)) sorted x0) in *.
  set (b := nth (Nat.min (S (Z.to_nat (Qfloor pos))) (length sorted - 1)) sorted x0) in *.
  set (f := pos - inject_Z (Qfloor pos)) in *.
  Lqa.nra.
Qed.

Lemma quantile_values_lower (xs : list float) (q v lo : Q) :
  (forall y, In (Some y) xs -> lo <= y) ->
  quantile_values xs q = Some v -> lo <= v.
Proof.
  intros Hb. apply interpolate_lower.
  intros y Hy. apply Hb. now apply In_notna_values, In_sort_values.
Qed.

Lemma quantile_values_upper (xs : list float) (q v hi : Q) :
  (forall y, In (Some y) xs -> y <= hi) ->
  quantile_values xs q = Some v -> v <= hi.
Proof.
  intros Hb. apply interpolate_upper.
  intros y Hy. apply Hb. now apply In_notna_values, In_sort_values.
Qed.

Lemma wf_row_index (L A : Type) (df : DataFrame L A) (l : L) (r : list A)
      (j : nat) (c : A) :
  wf df -> In (l, r) (rows df) -> nth_error r j = Some c ->
  (j < length (columns df))%nat.
Proof.
  intros Hwf Hin Hn. unfold wf in Hwf. rewrite Forall_forall in Hwf.
  rewrite <- (Hwf _ Hin). cbn [snd]. apply nth_error_Some. congruence.
Qed.



(** X8.  A row with a missing cell never survives the trim: a comparison
    with NaN is false, so the cell stays masked and the row is dropped. *)
Theorem feature_cleaner_drops_missing :
  forall (L : Type) (df : DataFrame L float) (low high : Q) new_df,
    wf df ->
    feature_cleaner_new_df df low high = Ok new_df ->
    forall l r, In (l, r) (rows df) -> In None r -> ~ In (l, r) (rows new_df).
Proof.
  intros L df low high new_df Hwf Hnew l r Hin Hnan Hkept.
  apply In_nth_error in Hnan as (j & Hn).
  pose proof (wf_row_index L float df l r j None Hwf Hin Hn) as Hj.
  apply (new_df_row_iff L df low high new_df Hwf Hnew) in Hkept as [_ Hk].
  destruct (Hk j Hj) as (x & _ & _ & Hn' & _).
  pose proof (eq_trans (eq_sym Hn) Hn') as E. discriminate E.
Qed.

Lemma feature_cleaner_drops_missing_witness :
  feature_cleaner_new_df
    (mkDF ["a"]%string [(0%Z, [None]); (1%Z, [Some 1]); (2%Z, [Some 2]); (3%Z, [Some 3])])
    0.1 0.9
  = Ok (mkDF ["a"]%string [(2%Z, [Some 2])])
  /\ ~ In (0%Z, [None]) [(2%Z, [Some 2])].
Proof.
  assert (Hnew : feature_cleaner_new_df
    (mkDF ["a"]%string [(0%Z, [None]); (1%Z, [Some 1]); (2%Z, [Some 2]); (3%Z, [Some 3])])
    0.1 0.9 = Ok (mkDF ["a"]%string [(2%Z, [Some 2])])) by (vm_compute; reflexivity).
  split; [exact Hnew|].
  assert (Hwf : wf (mkDF ["a"]%string
                      [(0%Z, [None]); (1%Z, [Some 1]); (2%Z, [Some 2]); (3%Z, [Some 3])]))
    by (repeat constructor).
  apply (feature_cleaner_drops_missing Z _ 0.1 0.9 _ Hwf Hnew 0%Z [None]);
    simpl; auto.
Defined.

Lemma exists_min (xs : list Q) :
  xs <> [] -> exists m, In m xs /\ forall y, In y xs -> m <= y.
Proof.
  induction xs as [|x xs IH]; [congruence|]. intros _.
  destruct xs as [|x' xs].
  - exists x. split; [now left|]. intros y [<-|[]]. apply Qle_refl.
  - destruct IH as (m & Hm & Hmin); [discriminate|].
    destruct (Qlt_le_dec m x) as [Hlt|Hle].
    + exists m. split; [now right|].
      intros y [<-|Hy]; [now apply Qlt_le_weak|now apply Hmin].
    + exists x. split; [now left|].
      intros y [<-|Hy]; [apply Qle_refl|].
      apply Qle_trans with m; [exact Hle|now apply Hmin].
Qed.

Lemma nth_not_default (A : Type) (l : list A) (j : nat) (d v : A) :
  nth j l d = v -> v <> d -> nth_error l j = Some v.
Proof.
  intros Hn Hd. destruct (nth_error l j) as [a|] eqn:E.
  - now rewrite (nth_error_nth _ _ d E) in Hn; subst.
  - apply nth_error_None in E. rewrite nth_overflow in Hn by exact E. congruence.
Qed.

Lemma filter_length_lt (A : Type) (p : A -> bool) (l : list A) (x : A) :
  In x l -> p x = false -> (length (filter p l) < length l)%nat.
Proof.
  induction l as [|y l IH]; intros Hin Hp; [destruct Hin|].
  cbn [filter length]. pose proof (filter_length_le p l) as Hle.
  destruct Hin as [->|Hin].
  - rewrite Hp. lia.
  - specialize (IH Hin Hp). destruct (p y); cbn [length]; lia.
Qed.

Lemma scaled_rows_length (L : Type) (new_df : DataFrame L float)
      (m : list float) (s : list (option R)) :
  length (rows (frame_div_series (frame_sub_series new_df m) s))
  = length (rows new_df).
Proof.
  unfold frame_div_series, frame_sub_series. cbn [rows].
  now rewrite !length_map.
Qed.



(** *** Percentiles grow with the threshold *)

Lemma insert_sorted (x : Q) (l : list Q) :
  StronglySorted Qle l -> StronglySorted Qle (insert x l).
Proof.
  induction 1 as [|y l Hs IH Hy]; cbn [insert].
  - constructor; constructor.
  - destruct (Qle_bool x y) eqn:E.
    + apply Qle_bool_iff in E. constructor; [now constructor|].
      constructor; [exact E|].
      eapply Forall_impl; [|exact Hy]. intros z Hz.
      now apply Qle_trans with y.
    + assert (Hyx : y <= x).
      { apply Qlt_le_weak, Qnot_le_lt. intros H. apply Qle_bool_iff in H. congruence. }
      constructor; [exact IH|].
      apply Forall_forall. intros z Hz. apply In_insert in Hz as [->|Hz];
        [exact Hyx|].
      rewrite Forall_forall in Hy. now apply Hy.
Qed.

Lemma sort_values_sorted (l : list Q) : StronglySorted Qle (sort_values l).
Proof.
  induction l as [|x l IH]; [constructor|].
  cbn [sort_values fold_right]. now apply insert_sorted.
Qed.

Lemma sorted_nth_le (l : list Q) :
  StronglySorted Qle l ->
  forall (i j : nat) (d : Q),
    (i <= j)%nat -> (j < length l)%nat -> nth i l d <= nth j l d.
Proof.
  induction 1 as [|x l Hs IH Hx]; intros i j d Hij Hj; [cbn in Hj; lia|].
  destruct i as [|i], j as [|j]; cbn [nth length] in *; try lia.
  - apply Qle_refl.
  - rewrite Forall_forall in Hx. apply Hx. apply nth_In. lia.
  - apply IH; lia.
Qed.

Lemma interpolate_monotone (s : list Q) (q1 q2 v1 v2 : Q) :
  StronglySorted Qle s ->
  0 <= q1 -> q1 <= q2 -> q2 <= 1 ->
  interpolate_linear s q1 = Some v1 ->
  interpolate_linear s q2 = Some v2 ->
  v1 <= v2.
Proof.
  intros Hs H0 H12 H1 E1 E2.
  apply interpolate_linear_inv in E1 as (x0 & t & Hst & ->).
  apply interpolate_linear_inv in E2 as (x0' & t' & Hst' & ->).
  assert (x0' = x0) by congruence. subst x0'. clear Hst' t'.
  assert (Hlen : length s = S (length s - 1)) by (rewrite Hst; cbn; lia).
  set (N := (length s - 1)%nat) in *.
  assert (HN : 0 <= inject_Z (Z.of_nat N)).
  { change 0 with (inject_Z 0). rewrite <- Zle_Qle. lia. }
  set (p1 := q1 * inject_Z (Z.of_nat N)).
  set (p2 := q2 * inject_Z (Z.of_nat N)).
  assert (Hp0 : 0 <= p1) by (unfold p1; Lqa.nra).
  assert (Hp12 : p1 <= p2) by (unfold p1, p2; Lqa.nra).
  assert (HpN : p2 <= inject_Z (Z.of_nat N)) by (unfold p2; Lqa.nra).
  assert (Hf0 : (0 <= Qfloor p1)%Z).
  { change 0%Z with (Qfloor 0). now apply Qfloor_resp_le. }
  assert (Hf12 : (Qfloor p1 <= Qfloor p2)%Z) by now apply Qfloor_resp_le.
  assert (HfN : (Qfloor p2 <= Z.of_nat N)%Z).
  { rewrite <- (Qfloor_Z (Z.of_nat N)). now apply Qfloor_resp_le. }
  destruct (frac_bounds p1) as [F10 F11].
  destruct (frac_bounds p2) as [F20 F21].
  set (i1 := Z.to_nat (Qfloor p1)) in *.
  set (i2 := Z.to_nat (Qfloor p2)) in *.
  assert (Hi12 : (i1 <= i2)%nat) by (unfold i1, i2; lia).
  assert (HiN : (i2 <= N)%nat) by (unfold i2; lia).
  assert (Hab1 : nth i1 s x0 <= nth (Nat.min (S i1) N) s x0).
  { apply sorted_nth_le; [exact Hs|lia|lia]. }
  assert (Hab2 : nth i2 s x0 <= nth (Nat.min (S i2) N) s x0).
  { apply sorted_nth_le; [exact Hs|lia|lia]. }
  destruct (Z.eq_dec (Qfloor p1) (Qfloor p2)) as [Heq|Hne].
  - assert (Hi : i1 = i2) by (unfold i1, i2; now rewrite Heq).
    rewrite <- Hi in *. rewrite <- Heq in *.
    set (a := nth i1 s x0) in *.
    set (b := nth (Nat.min (S i1) N) s x0) in *.
    set (f := inject_Z (Qfloor p1)) in *.
    Lqa.nra.
  - assert (Hlt : (i1 < i2)%nat) by (unfold i1, i2; lia).
    assert (Hba : nth (Nat.min (S i1) N) s x0 <= nth i2 s x0).
    { apply sorted_nth_le; [exact Hs|lia|lia]. }
    set (a1 := nth i1 s x0) in *.
    set (b1 := nth (Nat.min (S i1) N) s x0) in *.
    set (a2 := nth i2 s x0) in *.
    set (b2 := nth (Nat.min (S i2) N) s x0) in *.
    set (f1 := p1 - inject_Z (Qfloor p1)) in *.
    set (f2 := p2 - inject_Z (Qfloor p2)) in *.
    assert (Hv1 : a1 + (b1 - a1) * f1 <= b1) by Lqa.nra.
    assert (Hv2 : a2 <= a2 + (b2 - a2) * f2) by Lqa.nra.
    Lqa.lra.
Qed.

Lemma quantile_values_monotone (xs : list float) (q1 q2 v1 v2 : Q) :
  0 <= q1 -> q1 <= q2 -> q2 <= 1 ->
  quantile_values xs q1 = Some v1 -> quantile_values xs q2 = Some v2 ->
  v1 <= v2.
Proof.
  intros H0 H12 H1. unfold quantile_values.
  apply interpolate_monotone; try assumption. apply sort_values_sorted.
Qed.



(** X12.  The output of [feature_cleaner] is rectangular: on a well-formed
    table every returned row has exactly one cell per column. *)
Theorem feature_cleaner_output_wf :
  forall (L : Type) (df : DataFrame L float) (low high : Q) out,
    wf df -> feature_cleaner df low high = Ok out -> wf out.
Proof.
  intros L df low high out Hwf Hout.
  apply feature_cleaner_inv in Hout as (new_df & Hnew & ->).
  pose proof (new_df_wf L df low high new_df Hwf Hnew) as Hwf'.
  unfold wf in *. cbn [frame_div_series frame_sub_series columns rows].
  rewrite Forall_forall in *. intros r Hr.
  rewrite map_map in Hr. apply in_map_iff in Hr as (r0 & <- & Hr0).
  cbn [snd]. specialize (Hwf' r0 Hr0).
  rewrite zip_with_length.
  - rewrite zip_with_length; [exact Hwf'|].
    unfold mean. rewrite length_reduce_columns. exact Hwf'.
  - rewrite zip_with_length.
    + unfold std, var. rewrite length_map, length_reduce_columns. exact Hwf'.
    + unfold mean. rewrite length_reduce_columns. exact Hwf'.
Qed.

Lemma feature_cleaner_output_wf_witness :
  exists out, feature_cleaner Examples.testdf 0.01 0.99 = Ok out /\ wf out.
Proof.
  destruct (feature_cleaner_accepts _ Examples.testdf 0.01 0.99 eq_refl eq_refl)
    as (new_df & _ & Hout).
  eexists. split; [exact Hout|].
  exact (feature_cleaner_output_wf string Examples.testdf 0.01 0.99 _ testdf_wf Hout).
Defined.

(** ** Feature ranking on arbitrary tables *)

Lemma find_column_None (name : string) (cols : list string) :
  find_column name cols = None <-> ~ In name cols.
Proof.
  induction cols as [|c cs IH]; cbn [find_column In]; [tauto|].
  destruct (String.eqb_spec c name) as [->|Hne].
  - split; [discriminate|]. intros H. exfalso. apply H. now left.
  - destruct (find_column name cs) as [i|]; cbn [option_map].
    + split; [discriminate|]. intros H. exfalso.
      assert (Hn : ~ In name cs) by tauto.
      apply IH in Hn. discriminate Hn.
    + split; [|reflexivity]. intros _ [H|H]; [congruence|].
      now apply (proj1 IH).
Qed.

Lemma notna_values_all_nan (xs : list float) :
  (forall x, In x xs -> x = None) -> notna_values xs = [].
Proof.
  induction xs as [|x xs IH]; intros H; [reflexivity|].
  unfold notna_values in *. cbn [flat_map].
  rewrite (H x) by now left. cbn [app]. apply IH.
  intros y Hy. apply H. now right.
Qed.

(** The series [get_feature] takes [idxmax] of, for any key column: per
    column, the largest over the smallest ratio among the groups. *)
Lemma get_feature_series_general (L : Type) (df : DataFrame L float) (jc : nat) :
  find_column "CLASS" (columns df) = Some jc ->
  get_feature df
  = idxmax
      (zip_with
         (fun name j =>
            (name,
             fdiv (series_max
                     (map (fun k => R_code df jc j k)
                          (unique_sorted (sort_values (notna_values (column None jc df))))))
                  (series_min
                     (map (fun k => R_code df jc j k)
                          (unique_sorted (sort_values (notna_values (column None jc df))))))))
         (columns df) (seq 0 (length (columns df)))).
Proof.
  intros Hclass. unfold get_feature, groupby. rewrite Hclass.
  unfold groupby_apply, apply. cbn [obj_columns groups columns].
  f_equal. apply zip_with_seq_ext. intros name j Hj.
  assert (Hcol :
    column None j
      (mkDF (columns df)
         (map (fun kv : Q * DataFrame L float =>
                 (fst kv, series_div (series_sub (max (snd kv)) (min (snd kv)))
                                     (var (snd kv))))
              (map (fun k => (k, mkDF (columns df)
                                      (filter (fun r => feq (nth jc (snd r) None) (Some k))
                                              (rows df))))
                   (unique_sorted (sort_values (notna_values (column None jc df)))))))
    = map (fun k => R_code df jc j k)
          (unique_sorted (sort_values (notna_values (column None jc df))))).
  { unfold column. cbn [rows]. rewrite !map_map. cbn [fst snd].
    apply map_ext. intros k.
    rewrite group_ratio_nth by (cbn [columns]; lia). reflexivity. }
  now rewrite Hcol.
Qed.

Lemma R_code_class (L : Type) (df : DataFrame L float) (jc : nat) (k : Q) :
  R_code df jc jc k = None.
Proof.
  unfold R_code. exact (ratio_constant _ k (class_column_constant L df jc k)).
Qed.

Lemma first_valid_In (s : list (string * float)) (name : string) :
  first_valid s = Some name -> exists v, In (name, Some v) s.
Proof.
  induction s as [|[n0 [v0|]] s IH]; cbn [first_valid]; [discriminate| |].
  - intros [= <-].
    destruct (idxmax_from_split s n0 v0) as (pre & n & v & post & Hs & Hi & _).
    exists v. rewrite Hi.
    assert (H : In (n, Some v) (pre ++ (n, Some v) :: post))
      by (apply in_or_app; right; now left).
    exact (eq_ind_r (fun l => In (n, Some v) l) H Hs).
  - intros H. destruct (IH H) as (v & Hv). exists v. now right.
Qed.

(** X13.  [get_feature] raises a key error exactly when the table has no
    column named CLASS. *)
Theorem get_feature_key_error :
  forall (L : Type) (df : DataFrame L float),
    get_feature df = Raise KeyError <-> ~ In "CLASS"%string (columns df).
Proof.
  intros L df.
  destruct (find_column "CLASS" (columns df)) as [jc|] eqn:E.
  - assert (Hin : In "CLASS"%string (columns df)).
    { apply find_column_nth in E. exact (nth_error_In _ _ E). }
    assert (Hok : exists o, get_feature df = Ok o).
    { rewrite (get_feature_series_general L df jc E).
      destruct (columns df) as [|c cs]; [destruct Hin|].
      cbn [length seq zip_with idxmax]. eexists. reflexivity. }
    destruct Hok as (o & Ho). rewrite Ho.
    split; [discriminate|]. intros Hn. contradiction.
  - assert (Hn : ~ In "CLASS"%string (columns df)) by now apply find_column_None.
    assert (Hr : get_feature df = Raise KeyError).
    { unfold get_feature, groupby. now rewrite E. }
    tauto.
Qed.

(** X14.  Whatever the table holds, the name [get_feature] returns is a
    column of the table and is never CLASS: within any group the CLASS column
    is constant, so its ratio is NaN and [idxmax] skips it. *)
Theorem get_feature_never_class :
  forall (L : Type) (df : DataFrame L float) (name : string),
    NoDup (columns df) ->
    get_feature df = Ok (Some name) ->
    In name (columns df) /\ name <> "CLASS"%string.
Proof.
  intros L df name Hnd Hget.
  destruct (find_column "CLASS" (columns df)) as [jc|] eqn:E.
  2:{ unfold get_feature, groupby in Hget. rewrite E in Hget. discriminate Hget. }
  rewrite (get_feature_series_general L df jc E) in Hget.
  set (keys := unique_sorted (sort_values (notna_values (column None jc df)))) in *.
  set (s := zip_with _ (columns df) (seq 0 (length (columns df)))) in *.
  assert (Hfv : first_valid s = Some name).
  { unfold idxmax in Hget. destruct s; [discriminate Hget|]. now injection Hget. }
  apply first_valid_In in Hfv as (v & Hin).
  apply In_nth_error in Hin as (j & Hj).
  assert (Hlen : length s = length (columns df)) by apply zip_with_seq_length.
  assert (Hjlt : (j < length (columns df))%nat).
  { rewrite <- Hlen. apply nth_error_Some. intros Hnone.
    pose proof (eq_trans (eq_sym Hj) Hnone) as E'. discriminate E'. }
  destruct (nth_error (columns df) j) as [name'|] eqn:Hname.
  2:{ apply nth_error_None in Hname. lia. }
  unfold s in Hj.
  rewrite (nth_error_zip_with_seq _ _ _ _ 0%nat j name' Hname) in Hj.
  cbn [Nat.add] in Hj. injection Hj as -> HK.
  split; [exact (nth_error_In _ _ Hname)|].
  intros ->.
  assert (j = jc).
  { apply (proj1 (NoDup_nth_error (columns df)) Hnd); [exact Hjlt|].
    rewrite Hname. symmetry. now apply find_column_nth. }
  subst j.
  unfold series_max in HK.
  rewrite notna_values_all_nan in HK.
  - discriminate HK.
  - intros x Hx. apply in_map_iff in Hx as (k & <- & _). apply R_code_class.
Qed.

Lemma get_feature_never_class_witness :
  In "C"%string (columns Examples.classdf) /\ "C"%string <> "CLASS"%string.
Proof.
  assert (Hnd : NoDup (columns Examples.classdf)).
  { repeat constructor; simpl; intuition discriminate. }
  assert (Hget : get_feature Examples.classdf = Ok (Some "C"%string))
    by (vm_compute; reflexivity).
  exact (get_feature_never_class Z Examples.classdf "C"%string Hnd Hget).
Defined.


(** *** A table with a single class *)

Lemma unique_constant (b : list Q) (c : Q) :
  b <> [] -> Forall (fun k => k == c) b ->
  exists k, unique_sorted b = [k] /\ k == c.
Proof.
  intros Hne Hb. induction Hb as [|x b Hx Hb IH]; [congruence|].
  destruct b as [|y b].
  - exists x. split; [reflexivity|exact Hx].
  - rewrite unique_sorted_cons2.
    assert (E : Qeq_bool x y = true).
    { apply Qeq_bool_iff. inversion Hb as [|? ? Hy _]; subst. now rewrite Hx, Hy. }
    rewrite E. apply IH. discriminate.
Qed.

Lemma R_code_compat (L : Type) (df : DataFrame L float) (jc j : nat) (k c : Q) :
  k == c -> R_code df jc j k = R_code df jc j c.
Proof.
  intros Hk. unfold R_code, class_values.
  now rewrite (filter_ext _ (fun r => feq (nth jc (snd r) None) (Some c))
                 (fun r => feq_compat _ _ _ Hk)).
Qed.

Lemma idxmax_from_no_greater (t : list (string * float)) (bn : string) (bv : Q) :
  (forall n v, In (n, Some v) t -> v <= bv) -> idxmax_from (bn, bv) t = bn.
Proof.
  induction t as [|[n1 [v1|]] t IH]; intros H; cbn [idxmax_from snd];
    [reflexivity| |].
  - assert (E : Qlt_bool bv v1 = false).
    { unfold Qlt_bool. apply negb_false_iff, Qle_bool_iff.
      apply (H n1). now left. }
    rewrite E. apply IH. intros n v Hin. apply (H n). now right.
  - apply IH. intros n v Hin. apply (H n). now right.
Qed.

Lemma first_valid_skip (pre post : list (string * float)) (e : string * float) :
  (forall p, In p pre -> snd p = None) ->
  first_valid (pre ++ e :: post) = first_valid (e :: post).
Proof.
  induction pre as [|[n o] pre IH]; intros H; [reflexivity|].
  cbn [app first_valid].
  assert (Ho : o = None) by (apply (H (n, o)); now left). subst o.
  apply IH. intros p Hp. apply H. now right.
Qed.



(** * Properties in binary64 arithmetic *)

(** ** The order of the doubles

    The comparisons of the primitive floats are those of their
    specification, sign, exponent and mantissa in turn; on the numbers, NaN
    apart, they form a total preorder in which the two zeros are equal. *)

Module FloatOrder.
Import PrimFloat SpecFloat FloatOps FloatAxioms.
Local Open Scope float_scope.

Ltac cmp_cases :=
  repeat match goal with
  | H : context [Pos.compare_cont Eq ?a ?b] |- _ =>
      change (Pos.compare_cont Eq a b) with (Pos.compare a b) in H
  | |- context [Pos.compare_cont Eq ?a ?b] =>
      change (Pos.compare_cont Eq a b) with (Pos.compare a b)
  end;
  repeat match goal with
  | H : context [Z.compare ?a ?b] |- _ => destruct (Z.compare_spec a b)
  | |- context [Z.compare ?a ?b] => destruct (Z.compare_spec a b)
  | H : context [Pos.compare ?a ?b] |- _ => destruct (Pos.compare_spec a b)
  | |- context [Pos.compare ?a ?b] => destruct (Pos.compare_spec a b)
  end;
  cbn in *; try discriminate; try reflexivity; try lia.

Lemma SFcompare_None (a b : spec_float) :
  SFcompare a b = None <-> a = S754_nan \/ b = S754_nan.
Proof.
  destruct a as [sa|sa| |sa ma ea], b as [sb|sb| |sb mb eb]; cbn;
    split; intros H; try discriminate; try tauto;
      try (destruct H; discriminate); auto.
Qed.

Lemma SFcompare_refl (a : spec_float) :
  a <> S754_nan -> SFcompare a a = Some Eq.
Proof.
  destruct a as [sa|sa| |sa ma ea]; cbn; intros H; try congruence.
  - destruct sa; reflexivity.
  - destruct sa; cmp_cases.
Qed.

Lemma SFcompare_opp (a b : spec_float) :
  SFcompare b a = option_map CompOpp (SFcompare a b).
Proof.
  destruct a as [sa|sa| |sa ma ea], b as [sb|sb| |sb mb eb]; cbn;
    try reflexivity;
    try (destruct sa; reflexivity); try (destruct sb; reflexivity);
    try (destruct sa, sb; reflexivity).
  destruct sa, sb; cbn; try reflexivity; cmp_cases.
Qed.

Lemma SFcompare_eq_l (a b c : spec_float) :
  SFcompare a b = Some Eq -> SFcompare a c = SFcompare b c.
Proof.
  destruct a as [sa|sa| |sa ma ea], b as [sb|sb| |sb mb eb]; cbn;
    try discriminate;
    try (destruct sa; discriminate); try (destruct sb; discriminate);
    try (destruct sa, sb; discriminate).
  - intros _. destruct c; reflexivity.
  - destruct sa, sb; try discriminate; intros _; reflexivity.
  - destruct sa, sb; try discriminate; intros H;
      destruct c as [sc|sc| |sc mc ec]; cbn; try reflexivity;
        destruct sc; try reflexivity; cmp_cases.
Qed.

Lemma SFcompare_eq_r (a b c : spec_float) :
  SFcompare b c = Some Eq -> SFcompare a b = SFcompare a c.
Proof.
  intros H.
  assert (Hcb : SFcompare c b = Some Eq) by (rewrite SFcompare_opp, H; reflexivity).
  rewrite (SFcompare_opp b a), (SFcompare_opp c a).
  now rewrite (SFcompare_eq_l c b a Hcb).
Qed.

Lemma SFcompare_lt_trans (a b c : spec_float) :
  SFcompare a b = Some Lt -> SFcompare b c = Some Lt -> SFcompare a c = Some Lt.
Proof.
  destruct a as [sa|sa| |sa ma ea], b as [sb|sb| |sb mb eb],
           c as [sc|sc| |sc mc ec]; cbn; try discriminate;
    repeat match goal with s : bool |- _ => destruct s end; cbn;
      try discriminate; try reflexivity; intros H1 H2; cmp_cases.
Qed.

(** The comparison of two doubles. *)
Lemma ltb_iff (a b : float) :
  (a <? b) = true <-> SFcompare (Prim2SF a) (Prim2SF b) = Some Lt.
Proof.
  rewrite ltb_spec. unfold SFltb.
  destruct (SFcompare (Prim2SF a) (Prim2SF b)) as [[| |]|];
    split; intros H; congruence.
Qed.

Lemma eqb_iff (a b : float) :
  (a =? b) = true <-> SFcompare (Prim2SF a) (Prim2SF b) = Some Eq.
Proof.
  rewrite eqb_spec. unfold SFeqb.
  destruct (SFcompare (Prim2SF a) (Prim2SF b)) as [[| |]|];
    split; intros H; congruence.
Qed.

Lemma leb_iff (a b : float) :
  (a <=? b) = true
  <-> SFcompare (Prim2SF a) (Prim2SF b) = Some Lt
      \/ SFcompare (Prim2SF a) (Prim2SF b) = Some Eq.
Proof.
  rewrite leb_spec. unfold SFleb.
  destruct (SFcompare (Prim2SF a) (Prim2SF b)) as [[| |]|];
    split; intros H; try tauto; try congruence; destruct H; congruence.
Qed.

Lemma is_nan_iff (a : float) : is_nan a = true <-> Prim2SF a = S754_nan.
Proof.
  unfold is_nan. rewrite negb_true_iff, eqb_spec. unfold SFeqb. split.
  - intros H. destruct (Prim2SF a) eqn:E; try reflexivity;
      rewrite SFcompare_refl in H by discriminate; discriminate.
  - intros ->. reflexivity.
Qed.

Lemma is_nan_eq (a : float) : is_nan a = true -> a = nan.
Proof.
  intros H. apply is_nan_iff in H. apply Prim2SF_inj. rewrite H. reflexivity.
Qed.

Lemma is_nan_false_iff (a : float) : is_nan a = false <-> Prim2SF a <> S754_nan.
Proof.
  rewrite <- is_nan_iff. destruct (is_nan a); split; congruence.
Qed.

Lemma compare_Some_notnan (a b : float) (c : comparison) :
  SFcompare (Prim2SF a) (Prim2SF b) = Some c ->
  is_nan a = false /\ is_nan b = false.
Proof.
  intros H. rewrite !is_nan_false_iff.
  split; intros E; rewrite E in H;
    [discriminate H|destruct (Prim2SF a); discriminate H].
Qed.

Lemma ltb_notnan (a b : float) :
  (a <? b) = true -> is_nan a = false /\ is_nan b = false.
Proof. rewrite ltb_iff. apply compare_Some_notnan. Qed.

Lemma leb_notnan (a b : float) :
  (a <=? b) = true -> is_nan a = false /\ is_nan b = false.
Proof. rewrite leb_iff. intros [H|H]; exact (compare_Some_notnan _ _ _ H). Qed.

Lemma eqb_notnan (a b : float) :
  (a =? b) = true -> is_nan a = false /\ is_nan b = false.
Proof. rewrite eqb_iff. apply compare_Some_notnan. Qed.

Lemma compare_notnan (a b : float) :
  is_nan a = false -> is_nan b = false ->
  exists c, SFcompare (Prim2SF a) (Prim2SF b) = Some c.
Proof.
  rewrite !is_nan_false_iff. intros Ha Hb.
  destruct (SFcompare (Prim2SF a) (Prim2SF b)) as [c|] eqn:E; [now exists c|].
  apply SFcompare_None in E. tauto.
Qed.

Lemma ltb_leb (a b : float) : (a <? b) = true -> (a <=? b) = true.
Proof. rewrite ltb_iff, leb_iff. tauto. Qed.

Lemma eqb_leb (a b : float) : (a =? b) = true -> (a <=? b) = true.
Proof. rewrite eqb_iff, leb_iff. tauto. Qed.

Lemma leb_refl (a : float) : is_nan a = false -> (a <=? a) = true.
Proof.
  rewrite is_nan_false_iff, leb_iff. intros H. right. now apply SFcompare_refl.
Qed.

Lemma ltb_trans (a b c : float) :
  (a <? b) = true -> (b <? c) = true -> (a <? c) = true.
Proof. rewrite !ltb_iff. apply SFcompare_lt_trans. Qed.

Lemma leb_ltb_trans (a b c : float) :
  (a <=? b) = true -> (b <? c) = true -> (a <? c) = true.
Proof.
  rewrite leb_iff, !ltb_iff. intros [H|H] Hbc.
  - exact (SFcompare_lt_trans _ _ _ H Hbc).
  - now rewrite (SFcompare_eq_l _ _ _ H).
Qed.

Lemma ltb_leb_trans (a b c : float) :
  (a <? b) = true -> (b <=? c) = true -> (a <? c) = true.
Proof.
  rewrite leb_iff, !ltb_iff. intros Hab [H|H].
  - exact (SFcompare_lt_trans _ _ _ Hab H).
  - now rewrite <- (SFcompare_eq_r _ _ _ H).
Qed.

Lemma leb_trans (a b c : float) :
  (a <=? b) = true -> (b <=? c) = true -> (a <=? c) = true.
Proof.
  intros Hab Hbc. apply leb_iff in Hbc as [H|H].
  - apply ltb_leb. apply leb_ltb_trans with b; [exact Hab|now apply ltb_iff].
  - apply leb_iff. apply leb_iff in Hab.
    now rewrite <- (SFcompare_eq_r _ _ _ H).
Qed.

Lemma ltb_leb_false (a b : float) : (a <? b) = true -> (b <=? a) = false.
Proof.
  rewrite ltb_iff. intros H.
  destruct (b <=? a) eqn:E; [|reflexivity].
  apply leb_iff in E. rewrite SFcompare_opp, H in E. cbn in E.
  destruct E; discriminate.
Qed.

Lemma eqb_ltb_false (a b : float) :
  (a =? b) = true -> (a <? b) = false /\ (b <? a) = false.
Proof.
  rewrite eqb_iff. intros H. split.
  - destruct (a <? b) eqn:E; [|reflexivity]. apply ltb_iff in E. congruence.
  - destruct (b <? a) eqn:E; [|reflexivity]. apply ltb_iff in E.
    rewrite SFcompare_opp, H in E. discriminate E.
Qed.

Lemma leb_false_ltb (a b : float) :
  is_nan a = false -> is_nan b = false -> (a <=? b) = false -> (b <? a) = true.
Proof.
  intros Ha Hb H. destruct (compare_notnan a b Ha Hb) as (c & Hc).
  apply ltb_iff. rewrite SFcompare_opp, Hc.
  destruct c; cbn; try reflexivity; exfalso.
  - assert (E : (a <=? b) = true) by (apply leb_iff; tauto). congruence.
  - assert (E : (a <=? b) = true) by (apply leb_iff; tauto). congruence.
Qed.

Lemma ltb_false_leb (a b : float) :
  is_nan a = false -> is_nan b = false -> (a <? b) = false -> (b <=? a) = true.
Proof.
  intros Ha Hb H. destruct (compare_notnan a b Ha Hb) as (c & Hc).
  apply leb_iff. rewrite SFcompare_opp, Hc.
  destruct c; cbn; try tauto. exfalso.
  assert (E : (a <? b) = true) by now apply ltb_iff. congruence.
Qed.

Lemma leb_total (a b : float) :
  is_nan a = false -> is_nan b = false -> (a <=? b) = true \/ (b <=? a) = true.
Proof.
  intros Ha Hb. destruct (a <=? b) eqn:E; [now left|right].
  apply ltb_leb. now apply leb_false_ltb.
Qed.

(** Zeros, NaN and the quotient. *)
Lemma eqb_zero_iff (a : float) :
  (a =? 0) = true <-> exists s, Prim2SF a = S754_zero s.
Proof.
  rewrite eqb_iff. change (Prim2SF 0) with (S754_zero false).
  destruct (Prim2SF a) as [s|s| |s m e]; cbn; split;
    try (intros H; discriminate H); try (intros [s' H]; discriminate H);
    try (destruct s; intros H; discriminate H).
  - intros _. now exists s.
  - reflexivity.
Qed.

Lemma zero_div (v : float) : is_nan (0 / v) = true \/ (0 / v =? 0) = true.
Proof.
  rewrite is_nan_iff, eqb_zero_iff, div_spec.
  change (Prim2SF 0) with (S754_zero false). unfold SF64div.
  destruct (Prim2SF v) as [s|s| |s m e]; cbn; eauto.
Qed.

Lemma nan_div (v : float) : is_nan (nan / v) = true.
Proof.
  rewrite is_nan_iff, div_spec. change (Prim2SF nan) with S754_nan.
  reflexivity.
Qed.

Lemma div_nan_r (a v : float) : is_nan v = true -> is_nan (a / v) = true.
Proof.
  rewrite !is_nan_iff, div_spec. intros ->. unfold SF64div.
  destruct (Prim2SF a); reflexivity.
Qed.

Lemma div_nan_l (a v : float) : is_nan a = true -> is_nan (a / v) = true.
Proof.
  rewrite !is_nan_iff, div_spec. intros ->. reflexivity.
Qed.

Lemma zero_or_nan_div (a b : float) :
  is_nan a = true \/ (a =? 0) = true ->
  is_nan b = true \/ (b =? 0) = true ->
  is_nan (a / b) = true.
Proof.
  intros [Ha|Ha] Hb; [now apply div_nan_l|].
  destruct Hb as [Hb|Hb]; [now apply div_nan_r|].
  apply eqb_zero_iff in Ha as [sa Ha]. apply eqb_zero_iff in Hb as [sb Hb].
  rewrite is_nan_iff, div_spec, Ha, Hb. reflexivity.
Qed.

Lemma ltb_neg_infinity (a : float) : (a <? neg_infinity) = false.
Proof.
  destruct (a <? neg_infinity) eqn:E; [|reflexivity].
  apply ltb_iff in E. change (Prim2SF neg_infinity) with (S754_infinity true) in E.
  destruct (Prim2SF a) as [s|s| |s m e]; cbn in E;
    try discriminate E; destruct s; discriminate E.
Qed.

Lemma leb_neg_infinity (a : float) :
  (a <=? neg_infinity) = true -> (0 <? a) = false.
Proof.
  intros H. destruct (0 <? a) eqn:E; [|reflexivity].
  pose proof (ltb_leb_trans _ _ _ E H) as F.
  rewrite ltb_neg_infinity in F. discriminate F.
Qed.

End FloatOrder.

From Stdlib Require Import Permutation.

(** ** [feature_cleaner] in binary64 *)

Section Binary64.
Import PrimFloat F64 FloatOrder.
Local Open Scope float_scope.
#[local] Set Warnings "-inexact-float".

Lemma f64_is_nan_nan : is_nan nan = true.
Proof. reflexivity. Qed.

Lemma f64_quantile_accepts (L : Type) (np : numpy) (df : DataFrame L f64)
      (low high : f64) :
  check_percentile low = true -> check_percentile high = true ->
  quantile np df [low; high]
  = Ok (mkDF (columns df)
             [(low, percentile_series np df low);
              (high, percentile_series np df high)]).
Proof.
  intros Hl Hh. unfold quantile. cbn [forallb]. now rewrite Hl, Hh.
Qed.

(** The frame before scaling: the rows of [df] whose masked cells are all
    numbers, each with its masked cells. *)
Lemma f64_new_df_accepts (L : Type) (np : numpy) (df : DataFrame L f64)
      (low high : f64) :
  check_percentile low = true -> check_percentile high = true ->
  feature_cleaner_new_df np df low high
  = Ok (mkDF (columns df)
          (filter (fun r => negb (existsb is_nan (snd r)))
             (map (fun r => (fst r,
                             masked_cells (percentile_series np df low)
                                          (percentile_series np df high) (snd r)))
                  (rows df)))).
Proof.
  intros Hl Hh. unfold feature_cleaner_new_df.
  rewrite f64_quantile_accepts by assumption.
  unfold dropna, getitem_mask, frame_and, series_lt_frame, frame_lt_series, iloc.
  cbn [columns rows map nth snd].
  rewrite zip_with_map_l, zip_with_map_r. reflexivity.
Qed.

Lemma f64_new_df_inv (L : Type) (np : numpy) (df : DataFrame L f64)
      (low high : f64) (new_df : DataFrame L f64) :
  feature_cleaner_new_df np df low high = Ok new_df ->
  new_df
  = mkDF (columns df)
      (filter (fun r => negb (existsb is_nan (snd r)))
         (map (fun r => (fst r,
                         masked_cells (percentile_series np df low)
                                      (percentile_series np df high) (snd r)))
              (rows df))).
Proof.
  destruct (check_percentile low && check_percentile high) eqn:E.
  - apply andb_prop in E as [Hl Hh]. rewrite f64_new_df_accepts by assumption.
    intros H. injection H as H. symmetry. exact H.
  - unfold feature_cleaner_new_df, quantile. cbn [forallb].
    rewrite andb_true_r, E. discriminate.
Qed.

Lemma f64_scaled_index (L : Type) (new_df : DataFrame L f64) (m s : list f64) :
  index (frame_div_series (frame_sub_series new_df m) s) = index new_df.
Proof.
  unfold index, frame_div_series, frame_sub_series. cbn [rows].
  rewrite !map_map. reflexivity.
Qed.

(** The mask, cell by cell. *)
Lemma f64_masked_cells_cons (lo hi c : f64) (qlow qhigh cells : list f64) :
  masked_cells (lo :: qlow) (hi :: qhigh) (c :: cells)
  = (if (lo <? c) && (c <? hi) then c else nan) :: masked_cells qlow qhigh cells.
Proof. reflexivity. Qed.

Lemma f64_masked_cell_kept (lo hi c : f64) :
  is_nan (if (lo <? c) && (c <? hi) then c else nan) = false
  <-> (lo <? c) = true /\ (c <? hi) = true.
Proof.
  destruct (lo <? c) eqn:E1; destruct (c <? hi) eqn:E2; cbn [andb];
    try rewrite f64_is_nan_nan.
  - split; [auto|]. intros _. exact (proj1 (ltb_notnan c hi E2)).
  - split; [discriminate|]. intros [_ H]. discriminate H.
  - split; [discriminate|]. intros [H _]. discriminate H.
  - split; [discriminate|]. intros [H _]. discriminate H.
Qed.

Lemma f64_kept_cells_iff (F G : nat -> f64) (n : nat) :
  forall (s : nat) (cells : list f64),
    length cells = n ->
    (existsb is_nan (masked_cells (map F (seq s n)) (map G (seq s n)) cells) = false
     <-> forall j, (j < n)%nat ->
           exists x, nth_error cells j = Some x
                     /\ (F (s + j)%nat <? x) = true /\ (x <? G (s + j)%nat) = true).
Proof.
  induction n as [|n IH]; intros s cells Hlen.
  - destruct cells; [|discriminate]. cbn. split; [intros _ j Hj; lia|reflexivity].
  - destruct cells as [|c cells]; [discriminate|]. injection Hlen as Hlen.
    cbn [seq map]. rewrite f64_masked_cells_cons. cbn [existsb].
    rewrite orb_false_iff, f64_masked_cell_kept, (IH (S s) cells Hlen).
    split.
    + intros [[H1 H2] Hrest] [|j] Hj.
      * exists c. rewrite Nat.add_0_r. cbn. auto.
      * destruct (Hrest j ltac:(lia)) as (x' & Hn & H').
        exists x'. cbn [nth_error].
        replace (s + S j)%nat with (S s + j)%nat by lia. auto.
    + intros H. split.
      * destruct (H 0%nat ltac:(lia)) as (x & Hn & H').
        rewrite Nat.add_0_r in H'. cbn in Hn. injection Hn as ->. exact H'.
      * intros j Hj.
        destruct (H (S j) ltac:(lia)) as (x & Hn & H').
        replace (s + S j)%nat with (S s + j)%nat in H' by lia.
        exists x. cbn [nth_error] in Hn. auto.
Qed.

Lemma f64_kept_cells_id (F G : nat -> f64) (n : nat) :
  forall (s : nat) (cells : list f64),
    length cells = n ->
    existsb is_nan (masked_cells (map F (seq s n)) (map G (seq s n)) cells) = false ->
    masked_cells (map F (seq s n)) (map G (seq s n)) cells = cells.
Proof.
  induction n as [|n IH]; intros s cells Hlen.
  - destruct cells; [reflexivity|discriminate].
  - destruct cells as [|c cells]; [discriminate|]. injection Hlen as Hlen.
    cbn [seq map]. rewrite f64_masked_cells_cons. cbn [existsb].
    intros H. apply orb_false_iff in H as [Hc Hrest].
    rewrite (IH _ _ Hlen Hrest). f_equal.
    destruct ((F s <? c) && (c <? G s)); [reflexivity|].
    rewrite f64_is_nan_nan in Hc. discriminate Hc.
Qed.

(** On a well-formed frame the trim keeps whole rows, unchanged. *)
Lemma f64_new_df_rows (L : Type) (np : numpy) (df : DataFrame L f64)
      (low high : f64) (new_df : DataFrame L f64) :
  wf df ->
  feature_cleaner_new_df np df low high = Ok new_df ->
  rows new_df
  = filter (kept_row (percentile_series np df low) (percentile_series np df high))
           (rows df).
Proof.
  intros Hwf Hnew. rewrite (f64_new_df_inv L np df low high new_df Hnew).
  cbn [rows]. unfold wf in Hwf.
  induction Hwf as [|r rs Hr _ IH]; [reflexivity|].
  cbn [map filter snd fst]. unfold kept_row at 1. rewrite IH.
  destruct (existsb is_nan _) eqn:E; cbn [negb]; [reflexivity|].
  unfold percentile_series in *.
  rewrite f64_kept_cells_id; [now destruct r|exact Hr|exact E].
Qed.

Lemma f64_new_df_columns (L : Type) (np : numpy) (df : DataFrame L f64)
      (low high : f64) (new_df : DataFrame L f64) :
  feature_cleaner_new_df np df low high = Ok new_df -> columns new_df = columns df.
Proof.
  intros Hnew. now rewrite (f64_new_df_inv L np df low high new_df Hnew).
Qed.

(** The rows the trim keeps, on a well-formed frame. *)
Lemma f64_new_df_row_iff (L : Type) (np : numpy) (df : DataFrame L f64)
      (low high : f64) (new_df : DataFrame L f64) :
  wf df ->
  feature_cleaner_new_df np df low high = Ok new_df ->
  forall l r,
    In (l, r) (rows new_df)
    <-> In (l, r) (rows df)
        /\ forall j, (j < length (columns df))%nat ->
             exists x,
               nth_error r j = Some x
               /\ (quantile_values np (column nan j df) low <? x) = true
               /\ (x <? quantile_values np (column nan j df) high) = true.
Proof.
  intros Hwf Hnew l r.
  rewrite (f64_new_df_rows L np df low high new_df Hwf Hnew), filter_In.
  unfold kept_row, percentile_series. cbn [snd]. rewrite negb_true_iff.
  split; intros [Hin Hk]; (split; [exact Hin|]).
  - assert (Hlen : length r = length (columns df)).
    { unfold wf in Hwf. rewrite Forall_forall in Hwf. exact (Hwf _ Hin). }
    exact (proj1 (f64_kept_cells_iff _ _ _ 0%nat r Hlen) Hk).
  - assert (Hlen : length r = length (columns df)).
    { unfold wf in Hwf. rewrite Forall_forall in Hwf. exact (Hwf _ Hin). }
    exact (proj2 (f64_kept_cells_iff _ _ _ 0%nat r Hlen) Hk).
Qed.

Lemma f64_new_df_wf (L : Type) (np : numpy) (df : DataFrame L f64)
      (low high : f64) (new_df : DataFrame L f64) :
  wf df -> feature_cleaner_new_df np df low high = Ok new_df -> wf new_df.
Proof.
  intros Hwf Hnew. unfold wf in *.
  rewrite (f64_new_df_columns L np df low high new_df Hnew).
  rewrite (f64_new_df_rows L np df low high new_df Hwf Hnew).
  rewrite Forall_forall in *. intros r Hr. apply filter_In in Hr as [Hr _]. auto.
Qed.

(** *** Sorting and the percentile *)

Lemma f64_insert_perm (x : f64) (xs : list f64) : Permutation (insert x xs) (x :: xs).
Proof.
  induction xs as [|y ys IH]; cbn [insert]; [reflexivity|].
  destruct (x <=? y); [reflexivity|].
  rewrite IH. apply perm_swap.
Qed.

Lemma f64_sort_perm (xs : list f64) : Permutation (sort_values xs) xs.
Proof.
  induction xs as [|x xs IH]; cbn [sort_values fold_right]; [reflexivity|].
  fold (sort_values xs). rewrite f64_insert_perm. now constructor.
Qed.

Lemma f64_insert_sorted (x : f64) (xs : list f64) :
  is_nan x = false -> Forall (fun y => is_nan y = false) xs ->
  StronglySorted (fun a b => (a <=? b) = true) xs ->
  StronglySorted (fun a b => (a <=? b) = true) (insert x xs).
Proof.
  intros Hx Hxs Hs. induction Hs as [|y ys Hs IH Hy]; cbn [insert].
  - repeat constructor.
  - inversion Hxs as [|? ? Hny Hnys]; subst.
    destruct (x <=? y) eqn:E.
    + constructor; [now constructor|]. constructor; [exact E|].
      eapply Forall_impl; [|exact Hy]. intros z Hz. cbn beta in *.
      exact (leb_trans x y z E Hz).
    + constructor; [now apply IH|].
      assert (Hyx : (y <=? x) = true).
      { apply ltb_leb. now apply leb_false_ltb. }
      apply Forall_forall. intros z Hz.
      apply (Permutation_in _ (f64_insert_perm x ys)) in Hz as [<-|Hz];
        [exact Hyx|].
      rewrite Forall_forall in Hy. now apply Hy.
Qed.

Lemma f64_sort_sorted (xs : list f64) :
  Forall (fun y => is_nan y = false) xs ->
  StronglySorted (fun a b => (a <=? b) = true) (sort_values xs).
Proof.
  induction 1 as [|x xs Hx Hxs IH]; cbn [sort_values fold_right]; [constructor|].
  fold (sort_values xs). apply f64_insert_sorted; [exact Hx| |exact IH].
  apply Forall_forall. intros y Hy.
  apply (Permutation_in _ (f64_sort_perm xs)) in Hy.
  rewrite Forall_forall in Hxs. now apply Hxs.
Qed.

Lemma f64_notna_values_notnan (xs : list f64) :
  Forall (fun y => is_nan y = false) (notna_values xs).
Proof.
  apply Forall_forall. intros y Hy. unfold notna_values in Hy.
  apply filter_In in Hy as [_ Hy]. now apply negb_true_iff in Hy.
Qed.

Lemma f64_notna_values_id (xs : list f64) :
  Forall (fun y => is_nan y = false) xs -> notna_values xs = xs.
Proof.
  induction 1 as [|x xs Hx _ IH]; [reflexivity|].
  unfold notna_values in *. cbn [filter]. now rewrite Hx, IH.
Qed.

(** The integer part of the position. *)
Lemma f64_floor_index_spec (pos : f64) (fuel : nat) :
  forall i : nat,
    (i <= floor_index fuel i pos <= i + fuel)%nat
    /\ (floor_index fuel i pos = i
        \/ (of_nat (floor_index fuel i pos) <=? pos) = true)
    /\ (floor_index fuel i pos = (i + fuel)%nat
        \/ (of_nat (S (floor_index fuel i pos)) <=? pos) = false).
Proof.
  induction fuel as [|fuel IH]; intros i; cbn [floor_index].
  - split; [lia|]. split; left; lia.
  - destruct (of_nat (S i) <=? pos) eqn:E.
    + destruct (IH (S i)) as ((H1 & H2) & H3 & H4).
      split; [lia|]. split.
      * right. destruct H3 as [->|H3]; assumption.
      * destruct H4 as [H4|H4]; [left; lia|now right].
    + split; [lia|]. split; [now left|now right].
Qed.

(** The percentile of a column, written out: the non-NaN values in
    ascending order, the position [q * (n - 1)] (with pandas's detour by
    percent), its integer part [i], and the interpolation between the values
    at [i] and at [i + 1]. *)
Lemma f64_quantile_values_spec (np : numpy) (xs : list f64) (q : f64) :
  exists s : list f64,
    Permutation s (filter (fun x => negb (is_nan x)) xs)
    /\ StronglySorted (fun a b => (a <=? b) = true) s
    /\ (s = [] -> quantile_values np xs q = nan)
    /\ (s <> [] ->
        exists i : nat,
          (i <= length s - 1)%nat
          /\ (i = 0%nat \/ (of_nat i <=? q * 100 / 100 * of_nat (length s - 1)) = true)
          /\ (i = (length s - 1)%nat
              \/ (of_nat (S i) <=? q * 100 / 100 * of_nat (length s - 1)) = false)
          /\ quantile_values np xs q
             = match interp np with
               | weighted =>
                   nth i s nan * (1 - (q * 100 / 100 * of_nat (length s - 1) - of_nat i))
                   + nth (Nat.min (S i) (length s - 1)) s nan
                     * (q * 100 / 100 * of_nat (length s - 1) - of_nat i)
               | lerp =>
                   if 0.5 <=? q * 100 / 100 * of_nat (length s - 1) - of_nat i
                   then nth (Nat.min (S i) (length s - 1)) s nan
                        - (nth (Nat.min (S i) (length s - 1)) s nan - nth i s nan)
                          * (1 - (q * 100 / 100 * of_nat (length s - 1) - of_nat i))
                   else nth i s nan
                        + (nth (Nat.min (S i) (length s - 1)) s nan - nth i s nan)
                          * (q * 100 / 100 * of_nat (length s - 1) - of_nat i)
               end).
Proof.
  exists (sort_values (notna_values xs)).
  split; [apply f64_sort_perm|].
  split; [apply f64_sort_sorted, f64_notna_values_notnan|].
  unfold quantile_values.
  destruct (sort_values (notna_values xs)) as [|x0 s'] eqn:Es.
  - split; [reflexivity|congruence].
  - split; [discriminate|]. intros _.
    unfold interpolate_linear.
    set (s := x0 :: s') in *.
    set (pos := q * 100 / 100 * of_nat (length s - 1)).
    destruct (f64_floor_index_spec pos (length s - 1) 0%nat)
      as ((_ & Hle) & Hlo & Hhi).
    exists (floor_index (length s - 1) 0 pos).
    split; [exact Hle|]. split; [exact Hlo|]. split; [exact Hhi|].
    assert (Hn : (0 < length s)%nat) by (unfold s; cbn; lia).
    cbv zeta.
    rewrite (nth_indep s x0 nan) by lia.
    rewrite (nth_indep s x0 nan (n := Nat.min _ _)) by lia.
    destruct (interp np); reflexivity.
Qed.

(** C1.  In binary64, with thresholds 0 < low < high < 1 on a well-formed
    numeric table, [feature_cleaner] returns whatever the NumPy build; the
    frame it scales holds exactly the rows of the input whose every cell lies
    strictly between the low and the high percentile of its input column; so
    a row with a cell at or below the low percentile, at or above the high
    one, or missing, is dropped as a whole.  Each percentile is the linear
    interpolation on the input column: with [s] the non-NaN values of the
    column in ascending order, [n] their number and [pos = q * (n - 1)] (the
    threshold goes through percent and back), it is NaN for an empty [s], and
    otherwise the value between [s_i] and [s_(i+1)] at the fraction
    [pos - i], [i] being the integer part of [pos], computed by the formula
    of the build. *)
Theorem feature_cleaner_strict_trim :
  forall (L : Type) (np : numpy) (df : DataFrame L f64) (low high : f64),
    wf df -> (0 <? low) = true -> (low <? high) = true -> (high <? 1) = true ->
    exists new_df out,
      feature_cleaner_new_df np df low high = Ok new_df
      /\ feature_cleaner np df low high = Ok out
      /\ index out = index new_df
      /\ (forall l r,
             In (l, r) (rows new_df)
             <-> In (l, r) (rows df)
                 /\ forall j, (j < length (columns df))%nat ->
                      exists x,
                        nth_error r j = Some x
                        /\ (quantile_values np (column nan j df) low <? x) = true
                        /\ (x <? quantile_values np (column nan j df) high) = true)
      /\ (forall l r j x,
             In (l, r) (rows df) -> nth_error r j = Some x ->
             (x <=? quantile_values np (column nan j df) low) = true ->
             ~ In (l, r) (rows new_df))
      /\ (forall l r j x,
             In (l, r) (rows df) -> nth_error r j = Some x ->
             (quantile_values np (column nan j df) high <=? x) = true ->
             ~ In (l, r) (rows new_df))
      /\ (forall l r j x,
             In (l, r) (rows df) -> nth_error r j = Some x -> is_nan x = true ->
             ~ In (l, r) (rows new_df))
      /\ (forall (j : nat) (q : f64),
             exists s : list f64,
               Permutation s (filter (fun x => negb (is_nan x)) (column nan j df))
               /\ StronglySorted (fun a b => (a <=? b) = true) s
               /\ (s = [] -> quantile_values np (column nan j df) q = nan)
               /\ (s <> [] ->
                   exists i : nat,
                     (i <= length s - 1)%nat
                     /\ (i = 0%nat
                         \/ (of_nat i <=? q * 100 / 100 * of_nat (length s - 1)) = true)
                     /\ (i = (length s - 1)%nat
                         \/ (of_nat (S i) <=? q * 100 / 100 * of_nat (length s - 1))
                            = false)
                     /\ quantile_values np (column nan j df) q
                        = match interp np with
                          | weighted =>
                              nth i s nan
                              * (1 - (q * 100 / 100 * of_nat (length s - 1) - of_nat i))
                              + nth (Nat.min (S i) (length s - 1)) s nan
                                * (q * 100 / 100 * of_nat (length s - 1) - of_nat i)
                          | lerp =>
                              if 0.5 <=? q * 100 / 100 * of_nat (length s - 1) - of_nat i
                              then nth (Nat.min (S i) (length s - 1)) s nan
                                   - (nth (Nat.min (S i) (length s - 1)) s nan
                                      - nth i s nan)
                                     * (1 - (q * 100 / 100 * of_nat (length s - 1)
                                             - of_nat i))
                              else nth i s nan
                                   + (nth (Nat.min (S i) (length s - 1)) s nan
                                      - nth i s nan)
                                     * (q * 100 / 100 * of_nat (length s - 1) - of_nat i)
                          end)).
Proof.
  intros L np df low high Hwf H0 Hlh H1.
  assert (Hl : check_percentile low = true).
  { unfold check_percentile.
    rewrite (ltb_leb _ _ H0), (ltb_leb _ _ (ltb_trans _ _ _ Hlh H1)). reflexivity. }
  assert (Hh : check_percentile high = true).
  { unfold check_percentile.
    rewrite (ltb_leb _ _ (ltb_trans _ _ _ H0 Hlh)), (ltb_leb _ _ H1). reflexivity. }
  pose proof (f64_new_df_accepts L np df low high Hl Hh) as Hnew.
  eexists. eexists. split; [exact Hnew|].
  split; [unfold feature_cleaner; rewrite Hnew; reflexivity|].
  split; [apply f64_scaled_index|].
  pose proof (f64_new_df_row_iff L np df low high _ Hwf Hnew) as Hiff.
  split; [exact Hiff|].
  assert (Hj : forall l r j x, In (l, r) (rows df) ->
                 nth_error r j = Some x -> (j < length (columns df))%nat).
  { intros l r j x Hin Hn.
    unfold wf in Hwf. rewrite Forall_forall in Hwf.
    rewrite <- (Hwf _ Hin). cbn [snd]. apply nth_error_Some. congruence. }
  split; [|split; [|split]].
  - intros l r j x Hin Hn Hle Hkept.
    apply Hiff in Hkept as [_ Hk].
    destruct (Hk j (Hj _ _ _ _ Hin Hn)) as (x' & Hn' & Hlt & _).
    assert (x' = x) by congruence. subst x'.
    rewrite (ltb_leb_false _ _ Hlt) in Hle. discriminate Hle.
  - intros l r j x Hin Hn Hle Hkept.
    apply Hiff in Hkept as [_ Hk].
    destruct (Hk j (Hj _ _ _ _ Hin Hn)) as (x' & Hn' & _ & Hlt).
    assert (x' = x) by congruence. subst x'.
    rewrite (ltb_leb_false _ _ Hlt) in Hle. discriminate Hle.
  - intros l r j x Hin Hn Hnan Hkept.
    apply Hiff in Hkept as [_ Hk].
    destruct (Hk j (Hj _ _ _ _ Hin Hn)) as (x' & Hn' & _ & Hlt).
    assert (x' = x) by congruence. subst x'.
    rewrite (proj1 (ltb_notnan _ _ Hlt)) in Hnan. discriminate Hnan.
  - intros j q. apply f64_quantile_values_spec.
Qed.

Lemma feature_cleaner_strict_trim_witness :
  wf F64.Examples.testdf
  /\ (0 <? 0.01) = true /\ (0.01 <? 0.99) = true /\ (0.99 <? 1) = true
  /\ exists new_df,
       feature_cleaner_new_df (mkNumpy weighted pairwise) F64.Examples.testdf 0.01 0.99
       = Ok new_df.
Proof.
  assert (Hwf : wf F64.Examples.testdf) by (repeat constructor).
  assert (H0 : (0 <? 0.01) = true) by reflexivity.
  assert (H1 : (0.01 <? 0.99) = true) by reflexivity.
  assert (H2 : (0.99 <? 1) = true) by reflexivity.
  repeat (split; [assumption|]).
  destruct (feature_cleaner_strict_trim string (mkNumpy weighted pairwise)
              F64.Examples.testdf 0.01 0.99 Hwf H0 H1 H2) as (new_df & _ & H & _).
  exists new_df. exact H.
Defined.

(** The docstring table under every build: rows B, E and H hold a cell at
    or beyond a percentile and go. *)
Example f64_testdf_trimmed (np : numpy) :
  feature_cleaner_new_df np F64.Examples.testdf 0.01 0.99
  = Ok F64.Examples.testdf_trimmed.
Proof. destruct np as [[] []]; vm_compute; reflexivity. Qed.

(** Where rounding decides.  On the integers 0 to 10 the position
    0.3 * 10 rounds to 3: the low percentile is the cell 3 itself and row 3
    goes.  On the integers 0 to 25 the position 0.28 * 25 rounds to
    7.000000000000001: the high percentile lies above the cell 7 and row 7
    stays. *)
Example f64_grid_trim (np : numpy) :
  percentile_series np (F64.Examples.grid 11) 0.3 = [3]
  /\ feature_cleaner_new_df np (F64.Examples.grid 11) 0.3 0.95
     = Ok (mkDF ["x"%string]
                [(4%Z, [4]); (5%Z, [5]); (6%Z, [6]); (7%Z, [7]); (8%Z, [8]);
                 (9%Z, [9])])
  /\ percentile_series np (F64.Examples.grid 26) 0.28 = [7.0000000000000009]
  /\ feature_cleaner_new_df np (F64.Examples.grid 26) 0.1 0.28
     = Ok (mkDF ["x"%string]
                [(3%Z, [3]); (4%Z, [4]); (5%Z, [5]); (6%Z, [6]); (7%Z, [7])]).
Proof. destruct np as [[] []]; repeat split; vm_compute; reflexivity. Qed.

(** *** Scaling *)

Lemma f64_nth_reduce_columns (L T : Type) (f : list f64 -> T) (df : DataFrame L f64)
      (j : nat) (d : T) :
  (j < length (columns df))%nat ->
  nth j (reduce_columns f df) d = f (notna_values (column nan j df)).
Proof.
  intros Hj. unfold reduce_columns.
  rewrite (nth_indep _ d (f (notna_values (column nan 0%nat df)))).
  2:{ now rewrite length_map, length_seq. }
  rewrite (map_nth (fun j => f (notna_values (column nan j df)))).
  now rewrite seq_nth.
Qed.

Lemma f64_length_reduce_columns (L T : Type) (f : list f64 -> T)
      (df : DataFrame L f64) :
  length (reduce_columns f df) = length (columns df).
Proof. unfold reduce_columns. now rewrite length_map, length_seq. Qed.

(** After the trim every cell is a number. *)
Lemma f64_new_df_column (L : Type) (np : numpy) (df : DataFrame L f64)
      (low high : f64) (new_df : DataFrame L f64) (j : nat) :
  wf df -> feature_cleaner_new_df np df low high = Ok new_df ->
  (j < length (columns df))%nat ->
  Forall (fun x => is_nan x = false) (column nan j new_df).
Proof.
  intros Hwf Hnew Hj. apply Forall_forall. intros x Hx.
  unfold column in Hx. apply in_map_iff in Hx as ([l r] & <- & Hin).
  cbn [snd].
  apply (f64_new_df_row_iff L np df low high new_df Hwf Hnew) in Hin as [_ Hk].
  destruct (Hk j Hj) as (x & Hn & _ & Hlt).
  rewrite (nth_error_nth _ _ _ Hn). exact (proj1 (ltb_notnan _ _ Hlt)).
Qed.

(** A column of [(new_df - m) / s]. *)
Lemma f64_scaled_column (L : Type) (new_df : DataFrame L f64) (m s : list f64)
      (j : nat) :
  wf new_df -> (j < length (columns new_df))%nat ->
  length m = length (columns new_df) -> length s = length (columns new_df) ->
  column nan j (frame_div_series (frame_sub_series new_df m) s)
  = map (fun x => (x - nth j m nan) / nth j s nan) (column nan j new_df).
Proof.
  intros Hwf Hj Hm Hs. unfold column.
  cbn [frame_div_series frame_sub_series rows].
  rewrite !map_map. apply map_ext_in. intros r Hr. cbn [snd].
  assert (Hlen : length (snd r) = length (columns new_df)).
  { unfold wf in Hwf. rewrite Forall_forall in Hwf. auto. }
  assert (Hjr : (j < length (snd r))%nat).
  { exact (eq_ind_r (fun n => (j < n)%nat) Hj Hlen). }
  assert (Hjm : (j < length m)%nat).
  { exact (eq_ind_r (fun n => (j < n)%nat) Hj Hm). }
  assert (Hjs : (j < length s)%nat).
  { exact (eq_ind_r (fun n => (j < n)%nat) Hj Hs). }
  rewrite (nth_zip_with f64 f64 f64 div _ _ j nan nan nan).
  2:{ rewrite zip_with_length; [exact Hjr|].
      exact (eq_trans Hlen (eq_sym Hm)). }
  2:{ exact Hjs. }
  apply (f_equal (fun a => a / nth j s nan)).
  exact (nth_zip_with f64 f64 f64 sub (snd r) m j nan nan nan Hjr Hjm).
Qed.

(** C3.  In binary64 and for every NumPy build: once the trim has left
    [new_df], [feature_cleaner] returns a frame with the columns of the
    input and the index of [new_df]; no surviving cell is missing, and each
    output cell is the double [(x - m) / s], where [m] is the mean of its
    column over the surviving rows (their sum over their number) and [s] the
    sample standard deviation over the surviving rows (the square root of the
    sum of the squared distances to [m] over the number less one; NaN below
    two rows).  On the docstring table every output column then has a mean
    within 1e-15 of 0 and a sample standard deviation within 1e-15 of 1. *)
Theorem feature_cleaner_scaled_cells :
  (forall (L : Type) (np : numpy) (df : DataFrame L f64) (low high : f64)
          (new_df : DataFrame L f64),
      wf df ->
      feature_cleaner_new_df np df low high = Ok new_df ->
      exists out,
        feature_cleaner np df low high = Ok out
        /\ columns out = columns df
        /\ index out = index new_df
        /\ forall j, (j < length (columns df))%nat ->
             let xs := column nan j new_df in
             let m := sum np xs / of_nat (length xs) in
             let s := sqrt (if (length xs <=? 1)%nat then nan
                            else sum np (map (fun x => (m - x) * (m - x)) xs)
                                 / of_nat (length xs - 1)) in
             Forall (fun x => is_nan x = false) xs
             /\ column nan j out = map (fun x => (x - m) / s) xs)
  /\ (forall np : numpy,
        exists out,
          feature_cleaner np F64.Examples.testdf 0.01 0.99 = Ok out
          /\ Forall (fun m => (-1e-15 <? m) && (m <? 1e-15) = true) (mean np out)
          /\ Forall (fun s => (1 - 1e-15 <? s) && (s <? 1 + 1e-15) = true)
                    (std np out)).
Proof.
  split.
  - intros L np df low high new_df Hwf Hnew.
    eexists. split; [unfold feature_cleaner; rewrite Hnew; reflexivity|].
    split.
    { cbn [frame_div_series frame_sub_series columns].
      exact (f64_new_df_columns L np df low high new_df Hnew). }
    split; [apply f64_scaled_index|].
    intros j Hj xs m s.
    pose proof (f64_new_df_column L np df low high new_df j Hwf Hnew Hj) as Hnum.
    split; [exact Hnum|].
    pose proof (f64_new_df_columns L np df low high new_df Hnew) as Hcols.
    rewrite f64_scaled_column.
    + unfold mean, std.
      rewrite !f64_nth_reduce_columns by (rewrite Hcols; exact Hj).
      rewrite (f64_notna_values_id _ Hnum). reflexivity.
    + exact (f64_new_df_wf L np df low high new_df Hwf Hnew).
    + rewrite Hcols. exact Hj.
    + unfold mean. apply f64_length_reduce_columns.
    + unfold std. apply f64_length_reduce_columns.
  - intros np. eexists. split.
    + unfold feature_cleaner. rewrite f64_testdf_trimmed. reflexivity.
    + destruct np as [[] []]; split; vm_compute; repeat constructor.
Qed.

Lemma feature_cleaner_scaled_cells_witness :
  wf F64.Examples.testdf
  /\ exists out,
       feature_cleaner (mkNumpy weighted pairwise) F64.Examples.testdf 0.01 0.99
       = Ok out.
Proof.
  assert (Hwf : wf F64.Examples.testdf) by (repeat constructor).
  split; [exact Hwf|].
  destruct (proj1 feature_cleaner_scaled_cells string (mkNumpy weighted pairwise)
              F64.Examples.testdf 0.01 0.99 F64.Examples.testdf_trimmed Hwf
              (f64_testdf_trimmed (mkNumpy weighted pairwise)))
    as (out & Hout & _).
  exists out. exact Hout.
Defined.

(** A column whose three surviving values are 0.1, 0.1 and the next double:
    not constant, yet the output is -1, -1, 0, with mean -2/3 and sample
    standard deviation 0.577, under every build. *)
Lemma feature_cleaner_last_bit_column :
  Forall (fun np =>
            feature_cleaner_new_df np F64.Examples.ulp_df 0.1 0.9
            = Ok (mkDF ["x"%string]
                       [(1%Z, [0.1]); (2%Z, [0.1]); (3%Z, [0.10000000000000002])])
            /\ feature_cleaner np F64.Examples.ulp_df 0.1 0.9
               = Ok (mkDF ["x"%string] [(1%Z, [-1]); (2%Z, [-1]); (3%Z, [0])])
            /\ mean np (mkDF ["x"%string] [(1%Z, [-1]); (2%Z, [-1]); (3%Z, [0])])
               = [-0.66666666666666663]
            /\ std np (mkDF ["x"%string] [(1%Z, [-1]); (2%Z, [-1]); (3%Z, [0])])
               = [0.57735026918962584])
         F64.Examples.builds
  /\ (0.1 <? 0.10000000000000002) = true.
Proof.
  split; [|reflexivity].
  repeat constructor; vm_compute; reflexivity.
Qed.

(** ** [get_feature] in binary64 *)

(** *** The group keys of a binary column *)

Lemma f64_zero_neq_one : (0 : f64) <> 1.
Proof.
  intros H. pose proof (f_equal (fun x => x =? 0) H) as E.
  vm_compute in E. discriminate E.
Qed.

Lemma f64_insert_zero (l : list f64) :
  Forall (fun k => k = 0 \/ k = 1) l -> insert 0 l = 0 :: l.
Proof.
  intros H. destruct l as [|y l]; [reflexivity|].
  inversion H as [|? ? [->| ->] _]; reflexivity.
Qed.

Lemma f64_insert_one (a b : list f64) :
  Forall (fun k => k = 0) a -> Forall (fun k => k = 1) b ->
  insert 1 (a ++ b) = a ++ 1 :: b.
Proof.
  intros Ha Hb. induction Ha as [|y a Hy Ha IH]; cbn [app insert].
  - destruct b as [|y b]; [reflexivity|].
    inversion Hb as [|? ? Hy _]. rewrite Hy. reflexivity.
  - rewrite Hy. change (1 <=? 0) with false. cbn iota. now rewrite IH.
Qed.

Lemma f64_sort_binary (ks : list f64) :
  Forall (fun k => k = 0 \/ k = 1) ks ->
  exists a b,
    sort_values ks = a ++ b
    /\ Forall (fun k => k = 0) a /\ Forall (fun k => k = 1) b
    /\ (In 0 ks -> a <> []) /\ (In 1 ks -> b <> []).
Proof.
  induction 1 as [|x ks Hx Hks (a & b & Hs & Ha & Hb & Hna & Hnb)].
  - exists [], []. repeat split; try constructor; intros [].
  - cbn [sort_values fold_right]. fold (sort_values ks). rewrite Hs.
    assert (Hab : Forall (fun k => k = 0 \/ k = 1) (a ++ b)).
    { apply Forall_app. split; eapply Forall_impl; try eassumption;
        intros k Hk; [now left|now right]. }
    destruct Hx as [Hx|Hx]; rewrite Hx.
    + exists (0 :: a), b. rewrite (f64_insert_zero (a ++ b) Hab).
      split; [reflexivity|]. split; [now constructor|]. split; [exact Hb|].
      split; [intros; discriminate|].
      intros [Heq|Hin]; [|now apply Hnb].
      exfalso. exact (f64_zero_neq_one Heq).
    + exists a, (1 :: b). rewrite (f64_insert_one a b Ha Hb).
      split; [reflexivity|]. split; [exact Ha|]. split; [now constructor|].
      split; [|intros; discriminate].
      intros [Heq|Hin]; [|now apply Hna].
      exfalso. exact (f64_zero_neq_one (eq_sym Heq)).
Qed.

Lemma f64_unique_sorted_cons2 (x y : f64) (t : list f64) :
  unique_sorted (x :: y :: t)
  = if x =? y then unique_sorted (y :: t) else x :: unique_sorted (y :: t).
Proof. reflexivity. Qed.

Lemma f64_unique_ones (b : list f64) :
  b <> [] -> Forall (fun k => k = 1) b -> unique_sorted b = [1].
Proof.
  intros Hne Hb. induction Hb as [|x b Hx Hb IH]; [exfalso; now apply Hne|].
  rewrite Hx. destruct b as [|y b]; [reflexivity|].
  rewrite f64_unique_sorted_cons2.
  inversion Hb as [|? ? Hy _]. rewrite Hy in *.
  change (1 =? 1) with true. cbn iota. apply IH. discriminate.
Qed.

Lemma f64_unique_binary (a b : list f64) :
  a <> [] -> b <> [] ->
  Forall (fun k => k = 0) a -> Forall (fun k => k = 1) b ->
  unique_sorted (a ++ b) = [0; 1].
Proof.
  intros Hna Hnb Ha Hb.
  induction Ha as [|x a Hx Ha IH]; [exfalso; now apply Hna|].
  rewrite Hx. destruct a as [|x' a].
  - destruct b as [|y b]; [exfalso; now apply Hnb|]. cbn [app].
    rewrite f64_unique_sorted_cons2.
    inversion Hb as [|? ? Hy _]. rewrite Hy in *.
    change (0 =? 1) with false. cbn iota.
    apply f_equal. apply f64_unique_ones; assumption.
  - cbn [app]. rewrite f64_unique_sorted_cons2.
    inversion Ha as [|? ? Hx' _]. rewrite Hx' in *.
    change (0 =? 0) with true. cbn iota. apply IH. discriminate.
Qed.

Lemma f64_binary_keys (ks : list f64) :
  Forall (fun k => k = 0 \/ k = 1) ks -> In 0 ks -> In 1 ks ->
  unique_sorted (sort_values ks) = [0; 1].
Proof.
  intros Hks H0 H1.
  destruct (f64_sort_binary ks Hks) as (a & b & -> & Ha & Hb & Hna & Hnb).
  apply f64_unique_binary; auto.
Qed.

(** *** The ratio series *)

Lemma f64_group_ratio_nth (L : Type) (np : numpy) (g : DataFrame L f64) (j : nat) :
  (j < length (columns g))%nat ->
  nth j (series_div (series_sub (max g) (min g)) (var np g)) nan
  = (max_values (notna_values (column nan j g))
     - min_values (notna_values (column nan j g)))
    / var_values np (notna_values (column nan j g)).
Proof.
  intros Hj. unfold series_div, series_sub, max, min, var.
  rewrite (nth_zip_with f64 f64 f64 div _ _ j nan nan nan).
  2:{ rewrite zip_with_length; rewrite !f64_length_reduce_columns; auto. }
  2:{ now rewrite f64_length_reduce_columns. }
  rewrite (nth_zip_with f64 f64 f64 sub _ _ j nan nan nan).
  2,3: now rewrite f64_length_reduce_columns.
  now rewrite !f64_nth_reduce_columns.
Qed.

Lemma f64_max_values_constant (c : f64) (xs : list f64) :
  xs <> [] -> Forall (fun x => x = c) xs -> max_values xs = c /\ min_values xs = c.
Proof.
  intros Hne H. destruct H as [|x xs Hx Hxs]; [exfalso; now apply Hne|].
  cbn [max_values min_values]. rewrite Hx. clear Hne Hx x.
  induction Hxs as [|y ys Hy _ IH]; [now split|].
  cbn [fold_left]. rewrite Hy.
  replace (fmax c c) with c by (unfold fmax; now destruct (c <=? c)).
  replace (fmin c c) with c by (unfold fmin; now destruct (c <=? c)).
  exact IH.
Qed.

Lemma f64_fmax_cases (a b : f64) : fmax a b = a \/ fmax a b = b.
Proof. unfold fmax. destruct (b <=? a); auto. Qed.

Lemma f64_fmin_cases (a b : f64) : fmin a b = a \/ fmin a b = b.
Proof. unfold fmin. destruct (a <=? b); auto. Qed.

(** The largest and the smallest of two values, NaN skipped, when each
    value is a zero or NaN: again a zero or NaN. *)
Lemma f64_series_zero_or_nan (a b : f64) :
  is_nan a = true \/ (a =? 0) = true ->
  is_nan b = true \/ (b =? 0) = true ->
  (is_nan (series_max [a; b]) = true \/ (series_max [a; b] =? 0) = true)
  /\ (is_nan (series_min [a; b]) = true \/ (series_min [a; b] =? 0) = true).
Proof.
  intros Ha Hb. unfold series_max, series_min, notna_values. cbn [filter].
  destruct (is_nan a) eqn:Ea, (is_nan b) eqn:Eb; cbn [negb max_values min_values fold_left].
  - split; left; reflexivity.
  - rewrite Eb. split; exact Hb.
  - rewrite Ea. split; exact Ha.
  - split.
    + destruct (f64_fmax_cases a b) as [-> | ->]; rewrite ?Ea, ?Eb; assumption.
    + destruct (f64_fmin_cases a b) as [-> | ->]; rewrite ?Ea, ?Eb; assumption.
Qed.

(** *** The first largest value *)

Lemma f64_nan_to_neg_infinity_notnan (v : f64) :
  is_nan (nan_to_neg_infinity v) = false.
Proof.
  unfold nan_to_neg_infinity. destruct (is_nan v) eqn:E; [reflexivity|exact E].
Qed.

Lemma f64_argmax_from_split (t : list (string * f64)) :
  forall (bn : string) (bv : f64),
    is_nan bv = false ->
    exists pre n v post,
      (bn, bv) :: map (fun p => (fst p, nan_to_neg_infinity (snd p))) t
      = pre ++ (n, v) :: post
      /\ argmax_from (bn, bv) t = n
      /\ (bv <=? v) = true
      /\ (forall p, In p pre -> (snd p <? v) = true)
      /\ (forall p, In p post -> (snd p <=? v) = true).
Proof.
  induction t as [|[n1 v1] t IH]; intros bn bv Hbv.
  - exists [], bn, bv, []. split; [reflexivity|]. split; [reflexivity|].
    split; [now apply leb_refl|]. split; intros ? [].
  - cbn [argmax_from snd map fst].
    pose proof (f64_nan_to_neg_infinity_notnan v1) as Hv1.
    set (w1 := nan_to_neg_infinity v1) in *.
    destruct (bv <? w1) eqn:E.
    + destruct (IH n1 w1 Hv1) as (pre & n & v & post & Hs & Hi & Hle & Hpre & Hpost).
      exists ((bn, bv) :: pre), n, v, post.
      split; [cbn [app]; f_equal; exact Hs|]. split; [exact Hi|].
      assert (Hb : (bv <? v) = true) by exact (ltb_leb_trans _ _ _ E Hle).
      split; [now apply ltb_leb|]. split; [|exact Hpost].
      intros p [<-|Hin]; [exact Hb|now apply Hpre].
    + destruct (IH bn bv Hbv) as (pre & n & v & post & Hs & Hi & Hle & Hpre & Hpost).
      assert (Hw : (w1 <=? bv) = true) by now apply ltb_false_leb.
      destruct pre as [|p pre].
      * cbn [app] in Hs. injection Hs as <- <- <-.
        exists [], bn, bv, ((n1, w1) :: map (fun p => (fst p, nan_to_neg_infinity (snd p))) t).
        split; [reflexivity|]. split; [exact Hi|]. split; [exact Hle|].
        split; [intros ? []|].
        intros p [<-|Hin]; [exact Hw|now apply Hpost].
      * cbn [app] in Hs. injection Hs as <- Hs.
        exists ((bn, bv) :: (n1, w1) :: pre), n, v, post.
        split; [cbn [app]; now rewrite Hs|]. split; [exact Hi|].
        split; [exact Hle|]. split; [|exact Hpost].
        assert (Hb : (bv <? v) = true) by (apply (Hpre (bn, bv)); now left).
        intros p [<-|[<-|Hin]].
        -- exact Hb.
        -- exact (leb_ltb_trans _ _ _ Hw Hb).
        -- apply Hpre. now right.
Qed.

Lemma f64_idxmax_split (s : list (string * f64)) :
  (exists p, In p s /\ is_nan (snd p) = false) ->
  exists pre n v post,
    map (fun p => (fst p, nan_to_neg_infinity (snd p))) s = pre ++ (n, v) :: post
    /\ idxmax s = Ok (Some n)
    /\ (forall p, In p pre -> (snd p <? v) = true)
    /\ (forall p, In p post -> (snd p <=? v) = true).
Proof.
  intros (p & Hp & Hnum).
  destruct s as [|[n0 v0] t]; [destruct Hp|].
  destruct (f64_argmax_from_split t n0 (nan_to_neg_infinity v0)
              (f64_nan_to_neg_infinity_notnan v0))
    as (pre & n & v & post & Hs & Hi & _ & Hpre & Hpost).
  exists pre, n, v, post. split; [exact Hs|]. split; [|split; assumption].
  unfold idxmax.
  assert (E : forallb (fun p => is_nan (snd p)) ((n0, v0) :: t) = false).
  { destruct (forallb _ _) eqn:E; [|reflexivity].
    rewrite forallb_forall in E. pose proof (E p Hp) as F. cbv beta in F.
    exfalso. exact (diff_true_false (eq_trans (eq_sym F) Hnum)). }
  rewrite E, Hi. reflexivity.
Qed.

(** *** The series [get_feature] ranks *)

Lemma f64_binary_eqb (x c : f64) :
  x = 0 \/ x = 1 -> c = 0 \/ c = 1 -> (x =? c) = true -> x = c.
Proof.
  intros [-> | ->] [-> | ->] H; try reflexivity; vm_compute in H; discriminate H.
Qed.

Lemma f64_nan_to_neg_infinity_id (v : f64) :
  is_nan v = false -> nan_to_neg_infinity v = v.
Proof. intros H. unfold nan_to_neg_infinity. now rewrite H. Qed.

Section GetFeature64.
Variable L : Type.
Variable np : numpy.
Variable df : DataFrame L f64.
Variable jc : nat.
Hypothesis Hclass : find_column "CLASS" (columns df) = Some jc.
Hypothesis Hbin :
  forall l r, In (l, r) (rows df) -> nth jc r nan = 0 \/ nth jc r nan = 1.
Hypothesis HR :
  forall j, (j < length (columns df))%nat -> j <> jc ->
    is_nan (R_spec np df jc j 0) = false /\ is_nan (R_spec np df jc j 1) = false.
Hypothesis Hfeat : exists j, (j < length (columns df))%nat /\ j <> jc.

Lemma f64_class_column_binary :
  Forall (fun k => k = 0 \/ k = 1) (column nan jc df).
Proof.
  apply Forall_forall. intros k Hk. unfold column in Hk.
  apply in_map_iff in Hk as ([l r] & <- & Hin). exact (Hbin l r Hin).
Qed.

(** A class with a ratio that is a number has rows. *)
Lemma f64_class_occurs (j : nat) (c : f64) :
  c = 0 \/ c = 1 -> is_nan (R_spec np df jc j c) = false ->
  In c (column nan jc df).
Proof.
  intros Hc H. unfold R_spec, class_values in H.
  destruct (filter (fun r => nth jc (snd r) nan =? c) (rows df)) as [|r rest] eqn:E.
  - vm_compute in H. discriminate H.
  - assert (Hr : In r (filter (fun r => nth jc (snd r) nan =? c) (rows df))).
    { rewrite E. now left. }
    apply filter_In in Hr as [Hr Hf].
    unfold column. apply in_map_iff. exists r. split; [|exact Hr].
    apply f64_binary_eqb; [|exact Hc|exact Hf].
    destruct r as [l r]. exact (Hbin l r Hr).
Qed.

Lemma f64_class_keys :
  unique_sorted (sort_values (notna_values (column nan jc df))) = [0; 1].
Proof.
  destruct Hfeat as (j0 & Hj0 & Hne).
  destruct (HR j0 Hj0 Hne) as [H0 H1].
  rewrite f64_notna_values_id.
  - apply f64_binary_keys.
    + exact f64_class_column_binary.
    + apply (f64_class_occurs j0); [now left|exact H0].
    + apply (f64_class_occurs j0); [now right|exact H1].
  - eapply Forall_impl; [|exact f64_class_column_binary].
    intros k [-> | ->]; reflexivity.
Qed.

(** The series [get_feature] takes [idxmax] of: for every column, the
    largest ratio over the smallest, NaN ratios skipped. *)
Lemma f64_get_feature_series :
  get_feature np df
  = idxmax (zip_with
              (fun name j =>
                 (name,
                  series_max [R_spec np df jc j 0; R_spec np df jc j 1]
                  / series_min [R_spec np df jc j 0; R_spec np df jc j 1]))
              (columns df) (seq 0 (length (columns df)))).
Proof.
  unfold get_feature, groupby. rewrite Hclass, f64_class_keys.
  unfold groupby_apply, apply. cbn [obj_columns groups map fst snd columns].
  f_equal. apply zip_with_seq_ext. intros name j Hj.
  f_equal. unfold column. cbn [rows map snd].
  rewrite !f64_group_ratio_nth by (cbn [columns]; lia).
  reflexivity.
Qed.

(** Within a class the CLASS column is constant: its ratio is 0 over the
    variance, a zero or NaN. *)
Lemma f64_R_class (c : f64) :
  c = 0 \/ c = 1 ->
  is_nan (R_spec np df jc jc c) = true \/ (R_spec np df jc jc c =? 0) = true.
Proof.
  intros Hc. unfold R_spec.
  destruct (class_values df jc jc c) as [|x xs] eqn:E.
  - left. vm_compute. reflexivity.
  - assert (Hall : Forall (fun y => y = c) (x :: xs)).
    { rewrite <- E. apply Forall_forall. intros y Hy.
      unfold class_values, notna_values in Hy.
      apply filter_In in Hy as [Hy _].
      apply in_map_iff in Hy as (r & <- & Hr).
      apply filter_In in Hr as [Hr Hf].
      apply f64_binary_eqb; [|exact Hc|exact Hf].
      destruct r as [l r]. exact (Hbin l r Hr). }
    destruct (f64_max_values_constant c (x :: xs) ltac:(discriminate) Hall)
      as [-> ->].
    replace (c - c) with 0 by (destruct Hc as [-> | ->]; reflexivity).
    apply zero_div.
Qed.

Lemma f64_K_class :
  is_nan (series_max [R_spec np df jc jc 0; R_spec np df jc jc 1]
          / series_min [R_spec np df jc jc 0; R_spec np df jc jc 1]) = true.
Proof.
  destruct (f64_series_zero_or_nan _ _ (f64_R_class 0 (or_introl eq_refl))
              (f64_R_class 1 (or_intror eq_refl))) as [Hmax Hmin].
  now apply zero_or_nan_div.
Qed.

Lemma f64_K_feature (j : nat) :
  (j < length (columns df))%nat -> j <> jc ->
  series_max [R_spec np df jc j 0; R_spec np df jc j 1]
  / series_min [R_spec np df jc j 0; R_spec np df jc j 1]
  = K_spec np df jc j.
Proof.
  intros Hj Hne. destruct (HR j Hj Hne) as [E0 E1].
  unfold series_max, series_min, notna_values, K_spec. cbn [filter].
  rewrite E0, E1. reflexivity.
Qed.
End GetFeature64.



(** Two features whose K is 14/3 as a fraction: in doubles the K of the
    second is one bit above the K of the first, and the second is returned,
    under every build. *)
Example f64_get_feature_rounded_tie (np : numpy) :
  get_feature np F64.Examples.tiedf = Ok (Some "B"%string)
  /\ (K_spec np F64.Examples.tiedf 2 0 <? K_spec np F64.Examples.tiedf 2 1) = true.
Proof. destruct np as [[] []]; split; vm_compute; reflexivity. Qed.

(** ** Further properties in binary64 *)

Lemma f64_zip_with_div_nan (xs ss : list f64) :
  Forall (fun s => s = nan) ss ->
  Forall (fun c => is_nan c = true) (zip_with div xs ss).
Proof.
  intros H. revert xs. induction H as [|s ss Hs _ IH]; intros [|x xs];
    cbn [zip_with]; constructor.
  - rewrite Hs. now apply div_nan_r.
  - apply IH.
Qed.

Lemma f64_std_short (L : Type) (np : numpy) (new_df : DataFrame L f64) :
  (length (rows new_df) <= 1)%nat ->
  Forall (fun s => s = nan) (std np new_df).
Proof.
  intros Hlen. unfold std, reduce_columns. apply Forall_forall. intros s Hs.
  apply in_map_iff in Hs as (j & <- & _).
  unfold std_values, var_values.
  assert (Hn : (length (notna_values (column nan j new_df)) <= 1)%nat).
  { unfold notna_values. etransitivity; [apply filter_length_le|].
    unfold column. now rewrite length_map. }
  apply Nat.leb_le in Hn. rewrite Hn. reflexivity.
Qed.

(** X11.  When at most one row survives the trim, [feature_cleaner] still
    returns, with as many rows as survive, and every cell of the output is
    NaN, the sample standard deviation of fewer than two values being NaN.
    Several equal surviving values need not give NaN in binary64: the mean
    computed for 0.1, 0.1, 0.1 is the next double, the deviation is not zero,
    and the cells come out as -0.816. *)
Theorem feature_cleaner_single_row :
  (forall (L : Type) (np : numpy) (df : DataFrame L f64) (low high : f64)
          (new_df : DataFrame L f64),
      wf df ->
      feature_cleaner_new_df np df low high = Ok new_df ->
      (length (rows new_df) <= 1)%nat ->
      exists out,
        feature_cleaner np df low high = Ok out
        /\ length (rows out) = length (rows new_df)
        /\ forall l r, In (l, r) (rows out) ->
             length r = length (columns df)
             /\ Forall (fun c => is_nan c = true) r)
  /\ (forall np : numpy,
        feature_cleaner np F64.Examples.const_df 0.1 0.9
        = Ok (mkDF ["x"%string]
                   [(1%Z, [-0.81649658092772615]);
                    (2%Z, [-0.81649658092772615]);
                    (3%Z, [-0.81649658092772615])])).
Proof.
  split; [|intros np; destruct np as [[] []]; vm_compute; reflexivity].
  intros L np df low high new_df Hwf Hnew Hlen.
  eexists. split; [unfold feature_cleaner; rewrite Hnew; reflexivity|].
  split.
  { cbn [frame_div_series frame_sub_series rows]. now rewrite !length_map. }
  intros l r Hin. cbn [frame_div_series frame_sub_series rows] in Hin.
  rewrite map_map in Hin. apply in_map_iff in Hin as (r0 & Heq & Hr0).
  cbn [fst snd] in Heq. injection Heq as _ <-.
  pose proof (f64_new_df_wf L np df low high new_df Hwf Hnew) as Hwf'.
  pose proof (f64_new_df_columns L np df low high new_df Hnew) as Hcols.
  assert (Hl1 : length (snd r0) = length (columns new_df)).
  { unfold wf in Hwf'. rewrite Forall_forall in Hwf'. exact (Hwf' r0 Hr0). }
  assert (Hl0 : length (snd r0) = length (columns df)).
  { rewrite <- Hcols. exact Hl1. }
  split.
  - rewrite zip_with_length.
    + rewrite zip_with_length; [exact Hl0|].
      unfold mean. rewrite f64_length_reduce_columns.
      exact Hl1.
    + rewrite zip_with_length.
      * unfold std. rewrite f64_length_reduce_columns.
        exact Hl1.
      * unfold mean. rewrite f64_length_reduce_columns.
        exact Hl1.
  - apply f64_zip_with_div_nan. now apply f64_std_short.
Qed.

Lemma feature_cleaner_single_row_witness :
  exists out,
    feature_cleaner (mkNumpy weighted pairwise) F64.Examples.one_df 0.1 0.9 = Ok out
    /\ length (rows out) = 1%nat
    /\ forall l r, In (l, r) (rows out) ->
         length r = 1%nat /\ Forall (fun c => is_nan c = true) r.
Proof.
  assert (Hwf : wf F64.Examples.one_df) by (repeat constructor).
  assert (Hnew : feature_cleaner_new_df (mkNumpy weighted pairwise)
                   F64.Examples.one_df 0.1 0.9
                 = Ok (mkDF ["a"%string] [(1%Z, [2])]))
    by (vm_compute; reflexivity).
  assert (Hlen : (length (rows (mkDF ["a"%string] [(1%Z, [2])])) <= 1)%nat)
    by (cbn; lia).
  exact (proj1 feature_cleaner_single_row Z (mkNumpy weighted pairwise)
           F64.Examples.one_df 0.1 0.9 (mkDF ["a"%string] [(1%Z, [2])])
           Hwf Hnew Hlen).
Defined.

(** X15.  On a table with a CLASS column of zeros and ones in which the
    ratios R_0 and R_1 of every other column are numbers, [get_feature] is
    [idxmax] of the series that holds, under the name of every other column,
    its K = max(R_0, R_1) / min(R_0, R_1), and NaN under CLASS. *)
Theorem get_feature_ranks_K :
  forall (L : Type) (np : numpy) (df : DataFrame L f64) (jc : nat),
    find_column "CLASS" (columns df) = Some jc ->
    (forall l r, In (l, r) (rows df) -> nth jc r nan = 0 \/ nth jc r nan = 1) ->
    (forall j, (j < length (columns df))%nat -> j <> jc ->
       is_nan (R_spec np df jc j 0) = false
       /\ is_nan (R_spec np df jc j 1) = false) ->
    (exists j, (j < length (columns df))%nat /\ j <> jc) ->
    get_feature np df
    = idxmax (zip_with
                (fun name j =>
                   (name, if (j =? jc)%nat then nan else K_spec np df jc j))
                (columns df) (seq 0 (length (columns df)))).
Proof.
  intros L np df jc Hclass Hbin HR Hfeat.
  rewrite (f64_get_feature_series L np df jc Hclass Hbin HR Hfeat).
  f_equal. apply zip_with_seq_ext. intros name j Hj. f_equal.
  destruct (Nat.eqb_spec j jc) as [->|Hne].
  - apply is_nan_eq. exact (f64_K_class L np df jc Hbin).
  - apply (f64_K_feature L np df jc HR); [lia|exact Hne].
Qed.

Lemma get_feature_ranks_K_witness :
  get_feature (mkNumpy weighted pairwise) F64.Examples.classdf
  = idxmax (zip_with
              (fun name j =>
                 (name,
                  if (j =? 3)%nat then nan
                  else K_spec (mkNumpy weighted pairwise) F64.Examples.classdf 3 j))
              (columns F64.Examples.classdf)
              (seq 0 (length (columns F64.Examples.classdf)))).
Proof.
  assert (Hclass : find_column "CLASS" (columns F64.Examples.classdf) = Some 3%nat)
    by reflexivity.
  assert (Hbin : forall l r, In (l, r) (rows F64.Examples.classdf) ->
                   nth 3 r nan = 0 \/ nth 3 r nan = 1).
  { intros l r Hin. cbn in Hin.
    repeat (destruct Hin as [Heq|Hin];
            [injection Heq as <- <-;
             (left; reflexivity) || (right; reflexivity)|]).
    destruct Hin. }
  assert (HR : forall j, (j < length (columns F64.Examples.classdf))%nat ->
     j <> 3%nat ->
     is_nan (R_spec (mkNumpy weighted pairwise) F64.Examples.classdf 3 j 0) = false
     /\ is_nan (R_spec (mkNumpy weighted pairwise) F64.Examples.classdf 3 j 1) = false).
  { intros j Hj Hne. cbn in Hj.
    destruct j as [|[|[|[|j]]]]; try lia; try congruence;
      split; vm_compute; reflexivity. }
  assert (Hfeat : exists j, (j < length (columns F64.Examples.classdf))%nat
                            /\ j <> 3%nat).
  { exists 0%nat. cbn. split; [lia|discriminate]. }
  exact (get_feature_ranks_K Z (mkNumpy weighted pairwise)
           F64.Examples.classdf 3%nat Hclass Hbin HR Hfeat).
Defined.

End Binary64.
